(** * Killer Bunnies: gameplay logic of the Farmer, the Garden and the Burrows

    A shallow embedding of the game's entity logic
    ([src/player/farmer.ts], [src/environment/garden.ts] and the
    [Burrow] class) together with the properties of its per-frame
    update / dispose life cycle.

    Conventions.
    - A JavaScript [number] is modelled as an exact rational ([Q]);
      comparisons are the boolean ones of [QArith] so that every
      operation evaluates.  The rounding of doubles is not modelled:
      the properties below are about single operations, order and
      clamping, none about sums accumulated over several calls.
    - Engine objects (animators, the character controller, scene nodes)
      are modelled by the part of their state that the game code reads
      or writes; calls into them are recorded in logs.
    - Random sources ([Math.random], [MathUtil.randomInt] and the
      [Config] helpers) are oracles indexed by the number of draws made
      so far. *)

From Stdlib Require Import QArith Qminmax Lqa Lia List Bool.
From stdpp Require Import base option list gmap.

Local Open Scope Q_scope.

(** ** The engine's [Scalar] helpers *)

Module Scalar.

(** [Scalar.Clamp(value, min, max)] is
    [Math.min(max, Math.max(min, value))]. *)
Definition Clamp (value min max : Q) : Q := Qmin max (Qmax min value).

(** [Scalar.RandomRange(min, max)]: [min] when both ends coincide,
    otherwise [Math.random() * (max - min) + min]; [r] is the draw. *)
Definition RandomRange (r : Q) (min max : Q) : Q :=
  if Qeq_bool min max then min else r * (max - min) + min.

End Scalar.

(** ** The Farmer ([src/player/farmer.ts]) *)

Module Farmer.

(** The animation states an [Animator] can be asked to play. *)
Inductive AnimatorState : Type := Idle | Run | Shoot | TakeHit | Death.

(** An [Animator] is observed through the calls made to [play]: the
    requested state and the [loop] argument when one is passed. *)
Record Animator : Type := mkAnimator {
  plays : list (AnimatorState * option bool)
}.

Definition play (s : AnimatorState) (loop : option bool) (a : Animator)
  : Animator :=
  mkAnimator (plays a ++ [(s, loop)]).

(** The part of the [CharacterController] that the Farmer writes. *)
Record CharacterController : Type := mkController { disabled : bool }.

(** The collidables that can reach [onCollide]: a [StabberRabbit], with
    the two fields the Farmer reads, or any other collidable. *)
Inductive BaseCollidable : Type :=
| StabberRabbit (attacking : bool) (damage : Q)
| OtherCollidable.

Definition Vector2 : Type := (Q * Q)%type.
Definition Vector3 : Type := (Q * Q * Q)%type.

(** A [Bullet] as constructed by the fire handler: its speed and its
    range are the Farmer's weapon stats at the time of the shot. *)
Record Bullet : Type := mkBullet { bulletSpeed : Q; bulletRange : Q }.

(** The Farmer's private fields, followed by the effects it has on the
    rest of the game: the bullets it has created, the number of
    cooldown callbacks handed to [window.setTimeout] that have not run
    yet, and the number of radar refreshes requested. *)
Record t : Type := mkFarmer {
  controller : CharacterController;
  gunCooldown : bool;
  isMoving : bool;
  isFiring : bool;
  animator : Animator;
  weaponAnimator : Animator;
  hitTimer : Q;
  position : Vector3;
  facing : Vector2;
  maxHealth : Q;
  health : Q;
  movementSpeed : Q;
  weaponDamage : Q;
  weaponRange : Q;
  weaponSpeed : Q;
  bullets : list Bullet;
  pendingTimeouts : nat;
  radarUpdates : nat
}.

Definition set_controller (x : CharacterController) (f : t) : t :=
  mkFarmer x (gunCooldown f) (isMoving f) (isFiring f) (animator f)
    (weaponAnimator f) (hitTimer f) (position f) (facing f) (maxHealth f)
    (health f) (movementSpeed f) (weaponDamage f) (weaponRange f)
    (weaponSpeed f) (bullets f) (pendingTimeouts f) (radarUpdates f).

Definition set_gunCooldown (x : bool) (f : t) : t :=
  mkFarmer (controller f) x (isMoving f) (isFiring f) (animator f)
    (weaponAnimator f) (hitTimer f) (position f) (facing f) (maxHealth f)
    (health f) (movementSpeed f) (weaponDamage f) (weaponRange f)
    (weaponSpeed f) (bullets f) (pendingTimeouts f) (radarUpdates f).

Definition set_isMoving (x : bool) (f : t) : t :=
  mkFarmer (controller f) (gunCooldown f) x (isFiring f) (animator f)
    (weaponAnimator f) (hitTimer f) (position f) (facing f) (maxHealth f)
    (health f) (movementSpeed f) (weaponDamage f) (weaponRange f)
    (weaponSpeed f) (bullets f) (pendingTimeouts f) (radarUpdates f).

Definition set_isFiring (x : bool) (f : t) : t :=
  mkFarmer (controller f) (gunCooldown f) (isMoving f) x (animator f)
    (weaponAnimator f) (hitTimer f) (position f) (facing f) (maxHealth f)
    (health f) (movementSpeed f) (weaponDamage f) (weaponRange f)
    (weaponSpeed f) (bullets f) (pendingTimeouts f) (radarUpdates f).

Definition set_animator (x : Animator) (f : t) : t :=
  mkFarmer (controller f) (gunCooldown f) (isMoving f) (isFiring f) x
    (weaponAnimator f) (hitTimer f) (position f) (facing f) (maxHealth f)
    (health f) (movementSpeed f) (weaponDamage f) (weaponRange f)
    (weaponSpeed f) (bullets f) (pendingTimeouts f) (radarUpdates f).

Definition set_weaponAnimator (x : Animator) (f : t) : t :=
  mkFarmer (controller f) (gunCooldown f) (isMoving f) (isFiring f)
    (animator f) x (hitTimer f) (position f) (facing f) (maxHealth f)
    (health f) (movementSpeed f) (weaponDamage f) (weaponRange f)
    (weaponSpeed f) (bullets f) (pendingTimeouts f) (radarUpdates f).

Definition set_hitTimer (x : Q) (f : t) : t :=
  mkFarmer (controller f) (gunCooldown f) (isMoving f) (isFiring f)
    (animator f) (weaponAnimator f) x (position f) (facing f) (maxHealth f)
    (health f) (movementSpeed f) (weaponDamage f) (weaponRange f)
    (weaponSpeed f) (bullets f) (pendingTimeouts f) (radarUpdates f).

Definition set_position (x : Vector3) (f : t) : t :=
  mkFarmer (controller f) (gunCooldown f) (isMoving f) (isFiring f)
    (animator f) (weaponAnimator f) (hitTimer f) x (facing f) (maxHealth f)
    (health f) (movementSpeed f) (weaponDamage f) (weaponRange f)
    (weaponSpeed f) (bullets f) (pendingTimeouts f) (radarUpdates f).

Definition set_facing (x : Vector2) (f : t) : t :=
  mkFarmer (controller f) (gunCooldown f) (isMoving f) (isFiring f)
    (animator f) (weaponAnimator f) (hitTimer f) (position f) x (maxHealth f)
    (health f) (movementSpeed f) (weaponDamage f) (weaponRange f)
    (weaponSpeed f) (bullets f) (pendingTimeouts f) (radarUpdates f).

Definition set_maxHealth (x : Q) (f : t) : t :=
  mkFarmer (controller f) (gunCooldown f) (isMoving f) (isFiring f)
    (animator f) (weaponAnimator f) (hitTimer f) (position f) (facing f) x
    (health f) (movementSpeed f) (weaponDamage f) (weaponRange f)
    (weaponSpeed f) (bullets f) (pendingTimeouts f) (radarUpdates f).

Definition set_health (x : Q) (f : t) : t :=
  mkFarmer (controller f) (gunCooldown f) (isMoving f) (isFiring f)
    (animator f) (weaponAnimator f) (hitTimer f) (position f) (facing f)
    (maxHealth f) x (movementSpeed f) (weaponDamage f) (weaponRange f)
    (weaponSpeed f) (bullets f) (pendingTimeouts f) (radarUpdates f).

Definition set_movementSpeed (x : Q) (f : t) : t :=
  mkFarmer (controller f) (gunCooldown f) (isMoving f) (isFiring f)
    (animator f) (weaponAnimator f) (hitTimer f) (position f) (facing f)
    (maxHealth f) (health f) x (weaponDamage f) (weaponRange f)
    (weaponSpeed f) (bullets f) (pendingTimeouts f) (radarUpdates f).

Definition set_weaponDamage (x : Q) (f : t) : t :=
  mkFarmer (controller f) (gunCooldown f) (isMoving f) (isFiring f)
    (animator f) (weaponAnimator f) (hitTimer f) (position f) (facing f)
    (maxHealth f) (health f) (movementSpeed f) x (weaponRange f)
    (weaponSpeed f) (bullets f) (pendingTimeouts f) (radarUpdates f).

Definition set_weaponRange (x : Q) (f : t) : t :=
  mkFarmer (controller f) (gunCooldown f) (isMoving f) (isFiring f)
    (animator f) (weaponAnimator f) (hitTimer f) (position f) (facing f)
    (maxHealth f) (health f) (movementSpeed f) (weaponDamage f) x
    (weaponSpeed f) (bullets f) (pendingTimeouts f) (radarUpdates f).

Definition set_weaponSpeed (x : Q) (f : t) : t :=
  mkFarmer (controller f) (gunCooldown f) (isMoving f) (isFiring f)
    (animator f) (weaponAnimator f) (hitTimer f) (position f) (facing f)
    (maxHealth f) (health f) (movementSpeed f) (weaponDamage f)
    (weaponRange f) x (bullets f) (pendingTimeouts f) (radarUpdates f).

Definition set_bullets (x : list Bullet) (f : t) : t :=
  mkFarmer (controller f) (gunCooldown f) (isMoving f) (isFiring f)
    (animator f) (weaponAnimator f) (hitTimer f) (position f) (facing f)
    (maxHealth f) (health f) (movementSpeed f) (weaponDamage f)
    (weaponRange f) (weaponSpeed f) x (pendingTimeouts f) (radarUpdates f).

Definition set_pendingTimeouts (x : nat) (f : t) : t :=
  mkFarmer (controller f) (gunCooldown f) (isMoving f) (isFiring f)
    (animator f) (weaponAnimator f) (hitTimer f) (position f) (facing f)
    (maxHealth f) (health f) (movementSpeed f) (weaponDamage f)
    (weaponRange f) (weaponSpeed f) (bullets f) x (radarUpdates f).

Definition set_radarUpdates (x : nat) (f : t) : t :=
  mkFarmer (controller f) (gunCooldown f) (isMoving f) (isFiring f)
    (animator f) (weaponAnimator f) (hitTimer f) (position f) (facing f)
    (maxHealth f) (health f) (movementSpeed f) (weaponDamage f)
    (weaponRange f) (weaponSpeed f) (bullets f) (pendingTimeouts f) x.

(** The constructor's field initialisation, from the player
    configuration ([Config.player]) and the spawn position. *)
Definition create (cfgHealth cfgSpeed cfgWeaponDamage cfgWeaponRange
                   cfgWeaponSpeed : Q) (pos : Vector3) : t :=
  mkFarmer (mkController false) false false false (mkAnimator [])
    (mkAnimator []) (1 # 4) pos (0, 0) cfgHealth cfgHealth cfgSpeed
    cfgWeaponDamage cfgWeaponRange cfgWeaponSpeed [] 0%nat 0%nat.

(** [modifyHealth(value)]:
    [health = Scalar.Clamp(health + value, 0, maxHealth)]. *)
Definition modifyHealth (value : Q) (f : t) : t :=
  set_health (Scalar.Clamp (health f + value) 0 (maxHealth f)) f.

(** [modifyMaxHealth(value)]: [maxHealth += value], then
    [modifyHealth(this.health)]. *)
Definition modifyMaxHealth (value : Q) (f : t) : t :=
  let f1 := set_maxHealth (maxHealth f + value) f in
  modifyHealth (health f1) f1.

Definition modifyMovementSpeed (value : Q) (f : t) : t :=
  set_movementSpeed (movementSpeed f + value) f.

Definition modifyWeaponDamage (value : Q) (f : t) : t :=
  set_weaponDamage (weaponDamage f + value) f.

Definition modifyWeaponRange (value : Q) (f : t) : t :=
  set_weaponRange (weaponRange f + value) f.

Definition modifyWeaponSpeed (value : Q) (f : t) : t :=
  set_weaponSpeed (weaponSpeed f + value) f.

(** The test of [onCollide]: the collidable is an attacking
    [StabberRabbit] and the hit timer has run out. *)
Definition hitRegisters (c : BaseCollidable) (f : t) : bool :=
  match c with
  | StabberRabbit attacking _ => attacking && Qle_bool (hitTimer f) 0
  | OtherCollidable => false
  end.

Definition damageOf (c : BaseCollidable) : Q :=
  match c with
  | StabberRabbit _ damage => damage
  | OtherCollidable => 0
  end.

(** [onCollide(collidable)]. *)
Definition onCollide (c : BaseCollidable) (f : t) : t :=
  if hitRegisters c f then
    let f1 := set_hitTimer (1 # 4) f in
    let f2 := set_health (health f1 - damageOf c) f1 in
    set_animator (play TakeHit (Some false) (animator f2)) f2
  else f.

(** [update()]; [deltaTime] is [BabylonStore.deltaTime]. *)
Definition update (deltaTime : Q) (f : t) : t :=
  if Qle_bool (health f) 0 then
    let f1 := set_animator (play Death (Some false) (animator f)) f in
    set_controller (mkController true) f1
  else
    let f2 :=
      if negb (isFiring f) then
        let f1 := set_weaponAnimator (play Idle None (weaponAnimator f)) f in
        if negb (isMoving f1) && Qle_bool (hitTimer f1) 0 then
          set_animator (play Idle None (animator f1)) f1
        else f1
      else f in
    let f3 := set_hitTimer (hitTimer f2 - deltaTime) f2 in
    set_radarUpdates (S (radarUpdates f3)) f3.

(** The [onFire] handler. *)
Definition onFire (f : t) : t :=
  let f1 := set_isFiring true f in
  let f2 := set_weaponAnimator (play Shoot None (weaponAnimator f1)) f1 in
  let f3 :=
    if negb (isMoving f2) then
      set_animator (play Shoot None (animator f2)) f2
    else f2 in
  if gunCooldown f3 then f3
  else
    let f4 :=
      set_bullets (bullets f3 ++ [mkBullet (weaponSpeed f3) (weaponRange f3)])
        f3 in
    let f5 := set_gunCooldown true f4 in
    set_pendingTimeouts (S (pendingTimeouts f5)) f5.

(** The callback given to [window.setTimeout] by [onFire]. *)
Definition cooldownCallback (f : t) : t := set_gunCooldown false f.

Definition onFireEnd (f : t) : t := set_isFiring false f.

Definition onMoveEnd (f : t) : t := set_isMoving false f.

(** The [onRotate] handler: the new rotation is a function of [dir]
    alone, so the direction itself is kept. *)
Definition onRotate (dir : Vector2) (f : t) : t := set_facing dir f.

Definition scale3 (k : Q) (v : Vector3) : Vector3 :=
  let '(x, y, z) := v in (x * k, y * k, z * k).

Definition add3 (u v : Vector3) : Vector3 :=
  let '(a, b, c) := u in let '(x, y, z) := v in (a + x, b + y, c + z).

(** The ways the rest of the game reaches a Farmer: controller events,
    the deferred cooldown callback, the frame update, collisions and
    the stat modifiers. *)
Inductive Event : Type :=
| EvMove (dir : Vector2) (engineDeltaMs : Q)
| EvMoveEnd
| EvFire
| EvFireEnd
| EvRotate (dir : Vector2)
| EvCooldownElapsed
| EvUpdate (deltaTime : Q)
| EvCollide (c : BaseCollidable)
| EvModifyMaxHealth (value : Q)
| EvModifyHealth (value : Q)
| EvModifyMovementSpeed (value : Q)
| EvModifyWeaponDamage (value : Q)
| EvModifyWeaponRange (value : Q)
| EvModifyWeaponSpeed (value : Q).

Definition isCooldownElapsed (e : Event) : bool :=
  match e with EvCooldownElapsed => true | _ => false end.

(** The four operations that can write [health] or [maxHealth]. *)
Inductive HealthOp : Type :=
| OpModifyHealth (value : Q)
| OpModifyMaxHealth (value : Q)
| OpOnCollide (c : BaseCollidable)
| OpUpdate (deltaTime : Q).

Definition applyHealthOp (op : HealthOp) (f : t) : t :=
  match op with
  | OpModifyHealth v => modifyHealth v f
  | OpModifyMaxHealth v => modifyMaxHealth v f
  | OpOnCollide c => onCollide c f
  | OpUpdate dt => update dt f
  end.

(** [health] lies in the closed interval from 0 to [maxHealth]. *)
Definition healthBounded (f : t) : Prop :=
  0 <= health f /\ health f <= maxHealth f.

Section WithNavigation.

(** [Navigation.getClosestPoint], provided by the navigation mesh. *)
Variable getClosestPoint : Vector3 -> Vector3.

(** The [onMove] handler. *)
Definition onMove (dir : Vector2) (engineDeltaMs : Q) (f : t) : t :=
  let deltaTime := engineDeltaMs / 1000 in
  let moveDir := scale3 (movementSpeed f * deltaTime) (snd dir, 0, fst dir) in
  let f1 := set_position (getClosestPoint (add3 (position f) moveDir)) f in
  let f2 := set_animator (play Run None (animator f1)) f1 in
  set_isMoving true f2.

(** One event delivered to the Farmer.  A cooldown callback can only
    run if one is pending. *)
Definition step (e : Event) (f : t) : t :=
  match e with
  | EvMove dir ms => onMove dir ms f
  | EvMoveEnd => onMoveEnd f
  | EvFire => onFire f
  | EvFireEnd => onFireEnd f
  | EvRotate dir => onRotate dir f
  | EvCooldownElapsed =>
      match pendingTimeouts f with
      | O => f
      | S n => cooldownCallback (set_pendingTimeouts n f)
      end
  | EvUpdate dt => update dt f
  | EvCollide c => onCollide c f
  | EvModifyMaxHealth v => modifyMaxHealth v f
  | EvModifyHealth v => modifyHealth v f
  | EvModifyMovementSpeed v => modifyMovementSpeed v f
  | EvModifyWeaponDamage v => modifyWeaponDamage v f
  | EvModifyWeaponRange v => modifyWeaponRange v f
  | EvModifyWeaponSpeed v => modifyWeaponSpeed v f
  end.

(** A sequence of events, delivered in order. *)
Fixpoint run (es : list Event) (f : t) : t :=
  match es with
  | [] => f
  | e :: es' => run es' (step e f)
  end.

End WithNavigation.

(** *** Quantities read off a sequence of events *)

(** Whether an event is a frame update. *)
Definition isUpdate (e : Event) : bool :=
  match e with EvUpdate _ => true | _ => false end.

(** The number of [onFire] events of a sequence. *)
Fixpoint firesIn (es : list Event) : nat :=
  match es with
  | [] => O
  | EvFire :: es' => S (firesIn es')
  | _ :: es' => firesIn es'
  end.

(** The number of deferred cooldown callbacks of a sequence. *)
Fixpoint cooldownsElapsedIn (es : list Event) : nat :=
  match es with
  | [] => O
  | EvCooldownElapsed :: es' => S (cooldownsElapsedIn es')
  | _ :: es' => cooldownsElapsedIn es'
  end.

(** The events that can write a stat: collisions and the modifiers. *)
Definition writesStats (e : Event) : bool :=
  match e with
  | EvCollide _ | EvModifyMaxHealth _ | EvModifyHealth _
  | EvModifyMovementSpeed _ | EvModifyWeaponDamage _
  | EvModifyWeaponRange _ | EvModifyWeaponSpeed _ => true
  | _ => false
  end.

(** The six stats of the Farmer. *)
Definition stats (f : t) : Q * Q * Q * Q * Q * Q :=
  (maxHealth f, health f, movementSpeed f, weaponDamage f, weaponRange f,
   weaponSpeed f).

(** The cooldown flag and the deferred callbacks agree: a callback is
    pending exactly when the flag is set, and never more than one. *)
Definition cooldownConsistent (f : t) : Prop :=
  pendingTimeouts f = if gunCooldown f then 1%nat else 0%nat.

(** Whether the next [onFire] would create a Bullet, as a count. *)
Definition readyCredit (f : t) : nat :=
  if gunCooldown f then 0%nat else 1%nat.

(** Hits do not heal: the damage of a collision is not negative. *)
Definition nonNegDamage (e : Event) : Prop :=
  match e with
  | EvCollide c => 0 <= damageOf c
  | _ => True
  end.

End Farmer.

(** ** The Garden's spawn points ([src/environment/garden.ts]) *)

Module Garden.

(** A node of the scene graph: its identity, whether it is a mesh, and
    the nodes parented to it. *)
#[warnings="-register-all"]
Inductive TransformNode : Type :=
| mkNode (uniqueId : nat) (isMesh : bool) (children : list TransformNode).

Definition uniqueId (n : TransformNode) : nat :=
  match n with mkNode i _ _ => i end.

Definition isMesh (n : TransformNode) : bool :=
  match n with mkNode _ m _ => m end.

Definition children (n : TransformNode) : list TransformNode :=
  match n with mkNode _ _ cs => cs end.

(** [node.getChildMeshes()]: every descendant that is a mesh. *)
Fixpoint getChildMeshes (n : TransformNode) : list TransformNode :=
  match n with
  | mkNode _ _ cs =>
      flat_map (fun c => (if isMesh c then [c] else []) ++ getChildMeshes c) cs
  end.

(** A spawn point is free when no mesh is attached below it. *)
Definition isFree (n : TransformNode) : bool :=
  Nat.eqb (length (getChildMeshes n)) 0.

(** The two spawn-point arrays of the Garden. *)
Record t : Type := mkGarden {
  burrowSpawnPoints : list TransformNode;
  carrotSpawnPoints : list TransformNode
}.

(** [array[i]] for an integer [i]: [undefined] outside the array. *)
Definition arrayGet {A : Type} (arr : list A) (i : Z) : option A :=
  if (i <? 0)%Z then None else nth_error arr (Z.to_nat i).

Section WithRandom.

(** [MathUtil.randomInt(min, max)]: [randomInt k min max] is the value
    returned by the call made after [k] earlier draws. *)
Variable randomInt : nat -> Z -> Z -> Z.

(** The retry loop shared by both getters:
    [while (!node || node.getChildMeshes().length != 0)
       node = points[MathUtil.randomInt(0, points.length - 1)];]
    [fuel] bounds the number of iterations of the body, [k] counts the
    draws made so far.  [None] means that the loop is still running
    after [fuel] iterations; otherwise the returned node and the new
    draw count are given. *)
Fixpoint retryLoop (points : list TransformNode) (fuel k : nat)
  (node : option TransformNode) : option (TransformNode * nat) :=
  let body :=
    match fuel with
    | O => None
    | S fuel' =>
        retryLoop points fuel' (S k)
          (arrayGet points (randomInt k 0 (Z.of_nat (length points) - 1)))
    end in
  match node with
  | None => body
  | Some n => if isFree n then Some (n, k) else body
  end.

(** [getRandomBurrowNode()]: [node] starts out [undefined]. *)
Definition getRandomBurrowNode (g : t) (fuel k : nat)
  : option (TransformNode * nat) :=
  retryLoop (burrowSpawnPoints g) fuel k None.

(** [getRandomCarrotNode()]. *)
Definition getRandomCarrotNode (g : t) (fuel k : nat)
  : option (TransformNode * nat) :=
  retryLoop (carrotSpawnPoints g) fuel k None.

End WithRandom.

(** A getter, as a function of the random source, the fuel and the
    number of earlier draws. *)
Definition Getter : Type :=
  (nat -> Z -> Z -> Z) -> nat -> nat -> option (TransformNode * nat).

(** The call returns: from some number of iterations on, the loop has
    exited with one and the same result. *)
Definition returns (get : Getter) (randomInt : nat -> Z -> Z -> Z) (k : nat)
  : Prop :=
  exists r fuel, forall fuel', (fuel <= fuel')%nat ->
    get randomInt fuel' k = Some r.

(** The call never returns: the loop is still running after any number
    of iterations. *)
Definition loopsForever (get : Getter) (randomInt : nat -> Z -> Z -> Z)
  (k : nat) : Prop :=
  forall fuel, get randomInt fuel k = None.

(** A random source that respects its bounds. *)
Definition inRange (randomInt : nat -> Z -> Z -> Z) : Prop :=
  forall k lo hi, (lo <= hi)%Z ->
    (lo <= randomInt k lo hi)%Z /\ (randomInt k lo hi <= hi)%Z.

(** Some draw from the [k]-th on selects a free element of [points]. *)
Definition eventuallyDrawsFree (points : list TransformNode)
  (randomInt : nat -> Z -> Z -> Z) (k : nat) : Prop :=
  exists j n,
    arrayGet points
      (randomInt (k + j)%nat 0%Z (Z.of_nat (length points) - 1)%Z) = Some n
    /\ isFree n = true.

(** The element selected by the draw made after [j] earlier ones. *)
Definition drawAt (randomInt : nat -> Z -> Z -> Z)
  (points : list TransformNode) (j : nat) : option TransformNode :=
  arrayGet points (randomInt j 0%Z (Z.of_nat (length points) - 1)%Z).

(** A value of [node] on which the loop goes round again: [undefined],
    or a node with a child mesh. *)
Definition rejected (node : option TransformNode) : Prop :=
  match node with
  | None => True
  | Some m => isFree m = false
  end.

End Garden.

(** ** The Burrows (class [Burrow]) *)

Module Burrow.

Definition Vector3 : Type := (Q * Q * Q)%type.

(** [a < b] on numbers, as a boolean. *)
Definition Qlt_bool (a b : Q) : bool := negb (Qle_bool b a).

(** The random helpers and constants of [Config] that the Burrow uses.
    Each random helper is indexed by the number of draws made so far. *)
Record Config : Type := mkConfig {
  (** [Config.burrow.randomTimeLimit()] *)
  burrow_randomTimeLimit : nat -> Q;
  (** [Config.burrow.randomSpawnFrequency()] *)
  burrow_randomSpawnFrequency : nat -> Q;
  (** [Config.stabberRabbit.randomSpawnFrequency()] *)
  stabberRabbit_randomSpawnFrequency : nat -> Q;
  (** [Config.burrow.spawnFrequency.min] and [.max] *)
  burrow_spawnFrequency_min : Q;
  burrow_spawnFrequency_max : Q;
  (** [Math.random()], used by [Scalar.RandomRange] *)
  mathRandom : nat -> Q
}.

(** The private fields of one Burrow.  The root node is observed
    through the position of the parent it is attached to and through
    whether it has been disposed. *)
Record t : Type := mkBurrow {
  parentPosition : Vector3;
  rootDisposed : bool;
  spawnTimer : Q;
  disposeTime : Q
}.

Definition set_spawnTimer (x : Q) (b : t) : t :=
  mkBurrow (parentPosition b) (rootDisposed b) x (disposeTime b).

Definition set_rootDisposed (x : bool) (b : t) : t :=
  mkBurrow (parentPosition b) x (spawnTimer b) (disposeTime b).

(** Method calls on Burrow objects, recorded in the order they start. *)
Inductive Call : Type :=
| CallUpdate (ref : nat)
| CallDispose (ref : nat).

(** The part of the running game that the Burrow code reads and writes:
    the clock of [BabylonStore], the Burrow objects by reference, the
    static list [Burrow._burrows] of references, the StabberRabbits
    constructed so far (by spawn position), the positions at which the
    burrow sound was played, the number of random draws made, and the
    record of method calls. *)
Record World : Type := mkWorld {
  time : Q;
  deltaTime : Q;
  objects : gmap nat t;
  nextRef : nat;
  _burrows : list nat;
  rabbits : list Vector3;
  sounds : list Vector3;
  draws : nat;
  calls : list Call
}.

Definition set_objects (x : gmap nat t) (w : World) : World :=
  mkWorld (time w) (deltaTime w) x (nextRef w) (_burrows w) (rabbits w)
    (sounds w) (draws w) (calls w).

Definition set_nextRef (x : nat) (w : World) : World :=
  mkWorld (time w) (deltaTime w) (objects w) x (_burrows w) (rabbits w)
    (sounds w) (draws w) (calls w).

Definition set_burrows (x : list nat) (w : World) : World :=
  mkWorld (time w) (deltaTime w) (objects w) (nextRef w) x (rabbits w)
    (sounds w) (draws w) (calls w).

Definition set_rabbits (x : list Vector3) (w : World) : World :=
  mkWorld (time w) (deltaTime w) (objects w) (nextRef w) (_burrows w) x
    (sounds w) (draws w) (calls w).

Definition set_sounds (x : list Vector3) (w : World) : World :=
  mkWorld (time w) (deltaTime w) (objects w) (nextRef w) (_burrows w)
    (rabbits w) x (draws w) (calls w).

Definition set_draws (x : nat) (w : World) : World :=
  mkWorld (time w) (deltaTime w) (objects w) (nextRef w) (_burrows w)
    (rabbits w) (sounds w) x (calls w).

Definition set_calls (x : list Call) (w : World) : World :=
  mkWorld (time w) (deltaTime w) (objects w) (nextRef w) (_burrows w)
    (rabbits w) (sounds w) (draws w) x.

(** The frame driver advancing the clock of [BabylonStore]. *)
Definition tick (dt : Q) (w : World) : World :=
  mkWorld (time w + dt) dt (objects w) (nextRef w) (_burrows w) (rabbits w)
    (sounds w) (draws w) (calls w).

(** Writing a field of the object behind a reference. *)
Definition modifyObject (ref : nat) (g : t -> t) (w : World) : World :=
  set_objects (alter g ref (objects w)) w.

(** [dispose()]: [root.dispose()], then
    [Burrow._burrows = Burrow._burrows.filter(bur => bur !== this)]. *)
Definition dispose (ref : nat) (w : World) : World :=
  let w1 := set_calls (calls w ++ [CallDispose ref]) w in
  let w2 := modifyObject ref (set_rootDisposed true) w1 in
  set_burrows (filter (fun bur => bur <> ref) (_burrows w2)) w2.

Section WithConfig.

Variable cfg : Config.

(** [modifyDifficulty(modifier)]; [Math.random] is consulted by
    [Scalar.RandomRange] only when its two bounds differ. *)
Definition modifyDifficulty (ref : nat) (modifier : Q) (w : World) : World :=
  match objects w !! ref with
  | None => w
  | Some b =>
      let newMax := spawnTimer b - burrow_spawnFrequency_min cfg * modifier in
      let lo := burrow_spawnFrequency_max cfg in
      let w1 :=
        modifyObject ref
          (set_spawnTimer (Scalar.RandomRange (mathRandom cfg (draws w))
                             lo newMax)) w in
      if Qeq_bool lo newMax then w1 else set_draws (S (draws w1)) w1
  end.

(** [new Burrow(parent, round)]; [modifier] is
    [round.getDifficultyModifier()].  Returns the reference of the new
    object. *)
Definition create (parent : Vector3) (modifier : Q) (w : World)
  : nat * World :=
  let w1 := set_sounds (sounds w ++ [parent]) w in
  let ref := nextRef w1 in
  let dTime := time w1 + burrow_randomTimeLimit cfg (draws w1) in
  let w2 := set_draws (S (draws w1)) w1 in
  let sTimer := stabberRabbit_randomSpawnFrequency cfg (draws w2) in
  let w3 := set_draws (S (draws w2)) w2 in
  let w4 :=
    set_nextRef (S ref)
      (set_objects (<[ref := mkBurrow parent false sTimer dTime]> (objects w3))
         w3) in
  let w5 := set_burrows (_burrows w4 ++ [ref]) w4 in
  (ref, modifyDifficulty ref modifier w5).

(** How a call ends: it returns, or it throws; either way with the
    game in the state reached. *)
Inductive Outcome : Type :=
| Returned (w : World)
| Threw (w : World).

Definition worldOf (o : Outcome) : World :=
  match o with Returned w | Threw w => w end.

Definition threw (o : Outcome) : bool :=
  match o with Returned _ => false | Threw _ => true end.

(** [update()].  The spawn position is read through
    [this.#_root.parent]; once the root has been disposed it has no
    parent any more, and reading the position throws a [TypeError],
    after the timer has been decremented and before anything is
    spawned. *)
Definition update (ref : nat) (w : World) : Outcome :=
  let w0 := set_calls (calls w ++ [CallUpdate ref]) w in
  match objects w0 !! ref with
  | None => Returned w0
  | Some b =>
      if Qlt_bool (disposeTime b) (time w0) then Returned (dispose ref w0)
      else
        let timer := spawnTimer b - deltaTime w0 in
        let w1 := modifyObject ref (set_spawnTimer timer) w0 in
        if Qle_bool timer 0 then
          if rootDisposed b then Threw w1
          else
            let w2 := set_rabbits (rabbits w1 ++ [parentPosition b]) w1 in
            let w3 :=
              modifyObject ref
                (set_spawnTimer (burrow_randomSpawnFrequency cfg (draws w2)))
                w2 in
            Returned (set_draws (S (draws w3)) w3)
        else Returned w1
  end.

(** The loop of [updateAll()]:
    [for (let i = 0; i < this._burrows.length; i++)
       this._burrows[i].update();]
    The list is read afresh at every test and at every access; an
    exception thrown by an [update] ends the loop.  [None] means the
    loop is still running after [fuel] iterations. *)
Fixpoint updateAllFrom (fuel i : nat) (w : World) : option Outcome :=
  match _burrows w !! i with
  | None => Some (Returned w)
  | Some ref =>
      match fuel with
      | O => None
      | S fuel' =>
          match update ref w with
          | Returned w' => updateAllFrom fuel' (S i) w'
          | Threw w' => Some (Threw w')
          end
      end
  end.

Definition updateAll (fuel : nat) (w : World) : option Outcome :=
  updateAllFrom fuel 0 w.

End WithConfig.

(** [disposeAll()]:
    [while (this._burrows.length > 0) this._burrows[0].dispose();] *)
Fixpoint disposeAll (fuel : nat) (w : World) : option World :=
  match _burrows w with
  | [] => Some w
  | ref :: _ =>
      match fuel with
      | O => None
      | S fuel' => disposeAll fuel' (dispose ref w)
      end
  end.

(** The references whose [update()] was called, in order. *)
Definition updatedRefs (cs : list Call) : list nat :=
  flat_map (fun c => match c with CallUpdate r => [r] | _ => [] end) cs.

(** The references whose [dispose()] was called, in order. *)
Definition disposedRefs (cs : list Call) : list nat :=
  flat_map (fun c => match c with CallDispose r => [r] | _ => [] end) cs.

(** The static list is well formed when its references are distinct
    and each one denotes an object allocated by the constructor. *)
Definition wellFormed (w : World) : Prop :=
  NoDup (_burrows w)
  /\ forall r, r ∈ _burrows w ->
       (r < nextRef w)%nat /\ is_Some (objects w !! r).

(** No Burrow of the static list is past its deadline. *)
Definition noneExpired (w : World) : Prop :=
  forall r b, r ∈ _burrows w -> objects w !! r = Some b ->
    ~ disposeTime b < time w.

(** How many times [update()] was called on [ref]. *)
Definition updateCount (ref : nat) (cs : list Call) : nat :=
  length (filter (fun r => r = ref) (updatedRefs cs)).

(** *** Walking the static list while it shrinks *)

(** Whether the Burrow behind [ref] is past its deadline. *)
Definition expiredIn (w : World) (ref : nat) : bool :=
  match objects w !! ref with
  | Some b => Qlt_bool (disposeTime b) (time w)
  | None => false
  end.

(** The elements an index-based walk reaches in a list from which every
    expired element removes itself when reached: the element that
    follows an expired one slides into its place and is passed over. *)
Fixpoint visitOrder (expired : nat -> bool) (l : list nat) : list nat :=
  match l with
  | [] => []
  | x :: rest =>
      x :: (if expired x then
              match rest with
              | [] => []
              | _ :: rest' => visitOrder expired rest'
              end
            else visitOrder expired rest)
  end.

(** What such a walk leaves of the list. *)
Fixpoint remaining (expired : nat -> bool) (l : list nat) : list nat :=
  match l with
  | [] => []
  | x :: rest =>
      if expired x then
        match rest with
        | [] => []
        | y :: rest' => y :: remaining expired rest'
        end
      else x :: remaining expired rest
  end.

(** *** Sequences of operations on the Burrows *)

Inductive Op : Type :=
| OpCreate (parent : Vector3) (modifier : Q)
| OpUpdate (ref : nat)
| OpDispose (ref : nat)
| OpTick (dt : Q)
| OpUpdateAll
| OpDisposeAll.

(** Whether an operation is a call of [update] from outside
    [updateAll]. *)
Definition isDirectUpdate (op : Op) : bool :=
  match op with OpUpdate _ => true | _ => false end.

(** One operation; the two loops are given as many iterations as the
    list is long. *)
Definition applyOp (cfg : Config) (op : Op) (w : World) : option Outcome :=
  match op with
  | OpCreate parent modifier =>
      Some (Returned (snd (create cfg parent modifier w)))
  | OpUpdate ref => Some (update cfg ref w)
  | OpDispose ref => Some (Returned (dispose ref w))
  | OpTick dt => Some (Returned (tick dt w))
  | OpUpdateAll => updateAll cfg (length (_burrows w)) w
  | OpDisposeAll =>
      match disposeAll (length (_burrows w)) w with
      | Some w' => Some (Returned w')
      | None => None
      end
  end.

(** A sequence of operations, up to the first exception. *)
Fixpoint runOps (cfg : Config) (ops : list Op) (w : World)
  : option Outcome :=
  match ops with
  | [] => Some (Returned w)
  | op :: ops' =>
      match applyOp cfg op w with
      | Some (Returned w') => runOps cfg ops' w'
      | Some (Threw w') => Some (Threw w')
      | None => None
      end
  end.

(** No Burrow of the static list has a disposed root. *)
Definition listedLive (w : World) : Prop :=
  forall r b, r ∈ _burrows w -> objects w !! r = Some b ->
    rootDisposed b = false.

(** The static list is exactly the set of live Burrows: it is well
    formed, every object was allocated by the constructor, and an
    object is listed exactly when its root has not been disposed. *)
Definition liveRegistry (w : World) : Prop :=
  wellFormed w
  /\ (forall r, is_Some (objects w !! r) -> (r < nextRef w)%nat)
  /\ (forall r b, objects w !! r = Some b ->
        (r ∈ _burrows w <-> rootDisposed b = false)).

End Burrow.

(** ** Concrete values used to exercise the definitions *)

Module Sample.

(** A Farmer as the constructor leaves it, with 100 health. *)
Definition farmer0 : Farmer.t := Farmer.create 100 5 10 5 20 (0, 0, 0).

(** The same Farmer with 5 health left and the hit timer run out. *)
Definition farmerWeak : Farmer.t :=
  Farmer.set_hitTimer 0 (Farmer.set_health 5 farmer0).

(** A Farmer with 30 health out of 100. *)
Definition farmerHurt : Farmer.t := Farmer.set_health 30 farmer0.

(** The navigation mesh that leaves every point where it is. *)
Definition navId (p : Farmer.Vector3) : Farmer.Vector3 := p.

(** A garden with three burrow spawn points, the middle one free, and
    two carrot spawn points, both occupied. *)
Definition mesh (i : nat) : Garden.TransformNode := Garden.mkNode i true [].

Definition garden0 : Garden.t :=
  Garden.mkGarden
    [Garden.mkNode 1 false [Garden.mkNode 10 false [mesh 11]];
     Garden.mkNode 2 false [];
     Garden.mkNode 3 false [mesh 12]]
    [Garden.mkNode 4 false [mesh 13]; Garden.mkNode 5 false [mesh 14]].

(** A random source cycling through 0, 1, 2, ... within its bounds. *)
Definition cycling (k : nat) (lo hi : Z) : Z :=
  (lo + Z.of_nat k mod (hi - lo + 1))%Z.

(** A configuration whose first Burrow lives 5 seconds and whose later
    ones live 10; a Burrow makes three draws when constructed. *)
Definition config0 : Burrow.Config :=
  Burrow.mkConfig
    (fun k => if (k <? 3)%nat then 5 else 10)
    (fun _ => 3)
    (fun _ => 4)
    1
    2
    (fun _ => 1 # 2).

(** The game before any Burrow exists. *)
Definition world0 : Burrow.World :=
  Burrow.mkWorld 0 (1 # 60) ∅ 0 [] [] [] 0 [].

(** Two Burrows constructed at time 0, observed at time 6: the first
    one is past its deadline, the second one is not. *)
Definition worldTwo : Burrow.World :=
  let w1 := snd (Burrow.create config0 (1, 0, 1) 1 world0) in
  let w2 := snd (Burrow.create config0 (2, 0, 2) 1 w1) in
  Burrow.tick 6 w2.

(** The same two Burrows one second after their construction. *)
Definition worldYoung : Burrow.World :=
  let w1 := snd (Burrow.create config0 (1, 0, 1) 1 world0) in
  let w2 := snd (Burrow.create config0 (2, 0, 2) 1 w1) in
  Burrow.tick 1 w2.



End Sample.

(** * Properties *)

(** ** [Scalar.Clamp] *)

Lemma Clamp_bounds value lo hi :
  lo <= hi ->
  lo <= Scalar.Clamp value lo hi /\ Scalar.Clamp value lo hi <= hi.
Proof.
  intros Hle. unfold Scalar.Clamp. split.
  - apply Q.min_glb; [exact Hle | apply Q.le_max_l].
  - apply Q.le_min_l.
Qed.

Lemma Clamp_inverted value lo hi :
  hi < lo -> Scalar.Clamp value lo hi == hi.
Proof.
  intros Hlt. unfold Scalar.Clamp. apply Q.min_l.
  apply Qle_trans with lo; [apply Qlt_le_weak, Hlt | apply Q.le_max_l].
Qed.

Lemma Clamp_inside value lo hi :
  lo <= value -> value <= hi -> Scalar.Clamp value lo hi == value.
Proof.
  intros H1 H2. unfold Scalar.Clamp.
  rewrite (Q.max_r lo value) by exact H1. apply Q.min_r, H2.
Qed.

Lemma Clamp_below value lo hi :
  lo <= hi -> value <= lo -> Scalar.Clamp value lo hi == lo.
Proof.
  intros H1 H2. unfold Scalar.Clamp.
  rewrite (Q.max_l lo value) by exact H2. apply Q.min_r, H1.
Qed.

Lemma Clamp_above value lo hi :
  lo <= hi -> hi <= value -> Scalar.Clamp value lo hi == hi.
Proof.
  intros H1 H2. unfold Scalar.Clamp. apply Q.min_l.
  apply Qle_trans with value; [exact H2 | apply Q.le_max_r].
Qed.

Lemma Clamp_value_compat v1 v2 lo hi :
  v1 == v2 -> Scalar.Clamp v1 lo hi == Scalar.Clamp v2 lo hi.
Proof. intros Heq. unfold Scalar.Clamp. now rewrite Heq. Qed.

(** ** The Farmer's health *)

Import Farmer.
Import Sample.

(** Splitting a conjunction into its parts, and nothing else. *)
Ltac split_ands := repeat match goal with |- _ /\ _ => split end.

(** C5. For every [value], [modifyHealth value] sets [health] to the
    clamp of [health + value] into the interval from 0 to [maxHealth]
    and leaves [maxHealth], [movementSpeed], [weaponDamage],
    [weaponRange] and [weaponSpeed] as they were.  When
    [0 <= maxHealth] the clamp is the usual one: the sum itself when it
    lies in the interval, the nearest end otherwise. *)
Theorem modifyHealth_clamps (value : Q) (f : Farmer.t) :
  health (modifyHealth value f)
    = Scalar.Clamp (health f + value) 0 (maxHealth f)
  /\ maxHealth (modifyHealth value f) = maxHealth f
  /\ movementSpeed (modifyHealth value f) = movementSpeed f
  /\ weaponDamage (modifyHealth value f) = weaponDamage f
  /\ weaponRange (modifyHealth value f) = weaponRange f
  /\ weaponSpeed (modifyHealth value f) = weaponSpeed f
  /\ (0 <= maxHealth f ->
      (health f + value <= 0 -> health (modifyHealth value f) == 0)
      /\ (0 <= health f + value -> health f + value <= maxHealth f ->
          health (modifyHealth value f) == health f + value)
      /\ (maxHealth f <= health f + value ->
          health (modifyHealth value f) == maxHealth f)).
Proof.
  repeat split; try reflexivity; cbn [modifyHealth set_health health].
  - intros Hlow. now apply Clamp_below.
  - intros Hlo Hhi. now apply Clamp_inside.
  - intros Hhigh. now apply Clamp_above.
Qed.

Lemma modifyHealth_clamps_witness :
  health (modifyHealth (-(30)) farmer0) == 70
  /\ health (modifyHealth (-(130)) farmer0) == 0
  /\ health (modifyHealth 15 farmer0) == 100.
Proof.
  destruct (modifyHealth_clamps (-(30)) farmer0) as (_ & _ & _ & _ & _ & _ & H1).
  destruct (modifyHealth_clamps (-(130)) farmer0) as (_ & _ & _ & _ & _ & _ & H2).
  destruct (modifyHealth_clamps 15 farmer0) as (_ & _ & _ & _ & _ & _ & H3).
  assert (H0 : 0 <= maxHealth farmer0) by (vm_compute; discriminate).
  split; [|split].
  - rewrite (proj1 (proj2 (H1 H0))); vm_compute; try reflexivity; discriminate.
  - rewrite (proj1 (H2 H0)); vm_compute; try reflexivity; discriminate.
  - rewrite (proj2 (proj2 (H3 H0))); vm_compute; try reflexivity; discriminate.
Defined.

(** C9. [modifyMaxHealth value] adds [value] to [maxHealth] and then
    calls [modifyHealth] with the current health, so the new health is
    the clamp of twice the old health into the interval from 0 to the
    new maximum.  (This holds whatever the sign of the old health.) *)
Theorem modifyMaxHealth_doubles (value : Q) (f : Farmer.t) :
  modifyMaxHealth value f
    = modifyHealth (health f) (set_maxHealth (maxHealth f + value) f)
  /\ maxHealth (modifyMaxHealth value f) = maxHealth f + value
  /\ health (modifyMaxHealth value f)
       == Scalar.Clamp (2 * health f) 0 (maxHealth f + value).
Proof.
  split; [reflexivity | split; [reflexivity |]].
  cbn [modifyMaxHealth modifyHealth set_maxHealth set_health health maxHealth].
  apply Clamp_value_compat. ring.
Qed.

(** The doubling at work: from 30 out of 100, raising the maximum by 10
    gives 60, neither the old health nor the new maximum. *)
Example modifyMaxHealth_30_of_100 :
  health (modifyMaxHealth 10 farmerHurt) == 60
  /\ maxHealth (modifyMaxHealth 10 farmerHurt) == 110.
Proof. split; vm_compute; reflexivity. Qed.

(** A registered hit subtracts the damage from [health] without any
    clamping. *)
Lemma onCollide_health (c : BaseCollidable) (f : Farmer.t) :
  health (onCollide c f)
    = if hitRegisters c f then health f - damageOf c else health f.
Proof. unfold onCollide. destruct (hitRegisters c f); reflexivity. Qed.

Lemma onCollide_maxHealth (c : BaseCollidable) (f : Farmer.t) :
  maxHealth (onCollide c f) = maxHealth f.
Proof. unfold onCollide. destruct (hitRegisters c f); reflexivity. Qed.

(** [update] writes neither [health] nor [maxHealth]. *)
Lemma update_health (dt : Q) (f : Farmer.t) :
  health (update dt f) = health f /\ maxHealth (update dt f) = maxHealth f.
Proof.
  unfold update.
  destruct (Qle_bool (health f) 0); [split; reflexivity |].
  destruct (isFiring f); cbn [negb]; [split; reflexivity |].
  cbn [set_weaponAnimator isMoving hitTimer].
  destruct (negb (isMoving f) && Qle_bool (hitTimer f) 0);
    split; reflexivity.
Qed.

Lemma modifyHealth_bounded (value : Q) (f : Farmer.t) :
  0 <= maxHealth f -> healthBounded (modifyHealth value f).
Proof.
  intros Hmax. unfold healthBounded.
  cbn [modifyHealth set_health health maxHealth].
  now apply Clamp_bounds.
Qed.

(** C1 does not hold of the code.  A Farmer with 5 health out of 100 is
    within its bounds; a registered hit of 10 leaves its health at -5,
    because [onCollide] subtracts the damage without clamping, where
    [modifyHealth] with the same loss clamps to 0. *)
Theorem onCollide_breaks_health_bound :
  healthBounded farmerWeak
  /\ hitRegisters (StabberRabbit true 10) farmerWeak = true
  /\ health (applyHealthOp (OpOnCollide (StabberRabbit true 10)) farmerWeak)
       == -(5)
  /\ ~ healthBounded
         (applyHealthOp (OpOnCollide (StabberRabbit true 10)) farmerWeak)
  /\ health (applyHealthOp (OpModifyHealth (-(10))) farmerWeak) == 0
  /\ healthBounded (applyHealthOp (OpModifyHealth (-(10))) farmerWeak).
Proof.
  split_ands.
  - split; vm_compute; discriminate.
  - reflexivity.
  - vm_compute. reflexivity.
  - intros [Hlo _]. vm_compute in Hlo. now apply Hlo.
  - vm_compute. reflexivity.
  - split; vm_compute; discriminate.
Qed.

(** Hence the bound is not kept by every operation that writes
    [health]. *)
Lemma health_bound_not_preserved :
  ~ (forall (op : HealthOp) (f : Farmer.t),
        healthBounded f -> healthBounded (applyHealthOp op f)).
Proof.
  intros H.
  assert (Hweak : healthBounded farmerWeak)
    by (split; vm_compute; discriminate).
  specialize (H (OpOnCollide (StabberRabbit true 10)) farmerWeak Hweak).
  destruct H as [Hlo _]. vm_compute in Hlo. now apply Hlo.
Qed.

(** The operations that clamp, and [update], which writes no health,
    do keep the bound. *)
Lemma clamping_ops_keep_health_bound (f : Farmer.t) :
  healthBounded f ->
  (forall v, healthBounded (modifyHealth v f))
  /\ (forall v, 0 <= maxHealth f + v -> healthBounded (modifyMaxHealth v f))
  /\ (forall dt, healthBounded (update dt f)).
Proof.
  intros [Hlo Hhi]. split_ands.
  - intros v. apply modifyHealth_bounded. now apply Qle_trans with (health f).
  - intros v Hv. unfold modifyMaxHealth. now apply modifyHealth_bounded.
  - intros dt. unfold healthBounded.
    destruct (update_health dt f) as [-> ->]. now split.
Qed.

(** ** The Farmer's per-frame animation selection *)

(** C8. On each [update] the animation is selected from the state
    alone.  With [health <= 0] the body animator plays [Death] without
    looping, the character controller is disabled and the weapon
    animator is left alone.  Otherwise the controller is left alone;
    if the firing flag is clear the weapon animator plays [Idle], and
    if moreover the moving flag is clear and the hit timer has run out
    the body animator plays [Idle]; in the remaining cases the
    animators are asked nothing. *)
Theorem update_selects_animation (dt : Q) (f : Farmer.t) :
  (health f <= 0 ->
     animator (update dt f) = play Death (Some false) (animator f)
     /\ disabled (controller (update dt f)) = true
     /\ weaponAnimator (update dt f) = weaponAnimator f)
  /\ (~ health f <= 0 ->
     controller (update dt f) = controller f
     /\ (isFiring f = false ->
           weaponAnimator (update dt f) = play Idle None (weaponAnimator f))
     /\ (isFiring f = false -> isMoving f = false -> hitTimer f <= 0 ->
           animator (update dt f) = play Idle None (animator f))
     /\ (isFiring f = true ->
           weaponAnimator (update dt f) = weaponAnimator f
           /\ animator (update dt f) = animator f)
     /\ (isMoving f = true \/ ~ hitTimer f <= 0 ->
           animator (update dt f) = animator f)).
Proof.
  unfold update. split.
  - intros Hdead. apply Qle_bool_iff in Hdead. rewrite Hdead.
    repeat split.
  - intros Halive.
    destruct (Qle_bool (health f) 0) eqn:Hh;
      [apply Qle_bool_iff in Hh; contradiction |].
    destruct (isFiring f) eqn:Hfire; cbn [negb].
    + repeat split; try discriminate; reflexivity.
    + cbn [set_weaponAnimator isMoving hitTimer].
      destruct (Qle_bool (hitTimer f) 0) eqn:Ht;
        destruct (isMoving f) eqn:Hmove; cbn [negb andb];
        repeat split; try discriminate; try reflexivity.
      * intros [Hm | Hn]; [discriminate |].
        apply Qle_bool_iff in Ht. contradiction.
      * intros _ _ Hle. apply Qle_bool_iff in Hle. congruence.
Qed.

Lemma update_selects_animation_witness :
  plays (animator (update (1 # 60) (set_health 0 farmer0)))
    = [(Death, Some false)]
  /\ disabled (controller (update (1 # 60) (set_health 0 farmer0))) = true
  /\ plays (weaponAnimator (update (1 # 60) farmerWeak)) = [(Idle, None)]
  /\ plays (animator (update (1 # 60) farmerWeak)) = [(Idle, None)].
Proof.
  destruct (update_selects_animation (1 # 60) (set_health 0 farmer0))
    as [Hdead _].
  destruct (update_selects_animation (1 # 60) farmerWeak) as [_ Halive].
  assert (H0 : health (set_health 0 farmer0) <= 0)
    by (vm_compute; discriminate).
  assert (H1 : ~ health farmerWeak <= 0)
    by (vm_compute; intros H; now apply H).
  destruct (Hdead H0) as (Ha & Hc & _).
  destruct (Halive H1) as (_ & Hw & Hb & _).
  rewrite Ha, Hc, (Hw eq_refl).
  rewrite (Hb eq_refl eq_refl) by (vm_compute; discriminate).
  repeat split.
Defined.

(** ** The weapon cooldown *)

(** Case analysis on every test met in the goal. *)
Ltac split_tests :=
  repeat match goal with
         | |- context [if ?b then _ else _] => destruct b eqn:?
         end.

(** While the cooldown flag is set, [onFire] creates nothing and
    leaves the flag and the pending callbacks alone. *)
Lemma onFire_during_cooldown (f : Farmer.t) :
  gunCooldown f = true ->
  bullets (onFire f) = bullets f
  /\ gunCooldown (onFire f) = true
  /\ pendingTimeouts (onFire f) = pendingTimeouts f.
Proof.
  intros Hcd. destruct f as [? ? moving ? ? ? ? ? ? ? ? ? ? ? ? ? ? ?].
  cbn in Hcd. subst. destruct moving; cbn; auto.
Qed.

(** With the flag clear, [onFire] creates exactly one Bullet carrying
    the weapon stats, sets the flag and defers one callback. *)
Lemma onFire_when_ready (f : Farmer.t) :
  gunCooldown f = false ->
  bullets (onFire f) = bullets f ++ [mkBullet (weaponSpeed f) (weaponRange f)]
  /\ gunCooldown (onFire f) = true
  /\ pendingTimeouts (onFire f) = S (pendingTimeouts f).
Proof.
  intros Hcd. destruct f as [? ? moving ? ? ? ? ? ? ? ? ? ? ? ? ? ? ?].
  cbn in Hcd. subst. destruct moving; cbn; auto.
Qed.

(** No event other than the deferred callback clears the flag, creates
    a Bullet while the flag is set, or touches the pending callbacks. *)
Lemma step_during_cooldown nav (e : Event) (f : Farmer.t) :
  isCooldownElapsed e = false ->
  gunCooldown f = true ->
  gunCooldown (step nav e f) = true
  /\ bullets (step nav e f) = bullets f
  /\ pendingTimeouts (step nav e f) = pendingTimeouts f.
Proof.
  intros He Hcd. destruct e; try discriminate He; cbn [step].
  3: { destruct (onFire_during_cooldown f Hcd) as (? & ? & ?). auto. }
  all: unfold onMove, onMoveEnd, onFireEnd, onRotate, update, onCollide,
         modifyMaxHealth, modifyHealth, modifyMovementSpeed,
         modifyWeaponDamage, modifyWeaponRange, modifyWeaponSpeed;
       split_tests; cbn; auto.
Qed.

Lemma run_during_cooldown nav (es : list Event) (f : Farmer.t) :
  Forall (fun e => isCooldownElapsed e = false) es ->
  gunCooldown f = true ->
  gunCooldown (run nav es f) = true
  /\ bullets (run nav es f) = bullets f
  /\ pendingTimeouts (run nav es f) = pendingTimeouts f.
Proof.
  intros Hes. revert f.
  induction Hes as [| e es He _ IH]; intros f Hcd; cbn [run]; [auto |].
  destruct (step_during_cooldown nav e f He Hcd) as (Hc & Hb & Hp).
  destruct (IH _ Hc) as (Hc' & Hb' & Hp').
  rewrite Hb', Hp', Hb, Hp. auto.
Qed.

(** A sequence of events either contains no deferred callback, or
    splits at its first one. *)
Lemma first_cooldownElapsed (es : list Event) :
  Forall (fun e => isCooldownElapsed e = false) es
  \/ exists es1 es2,
       es = es1 ++ EvCooldownElapsed :: es2
       /\ Forall (fun e => isCooldownElapsed e = false) es1.
Proof.
  induction es as [| e es IH]; [left; constructor |].
  destruct (isCooldownElapsed e) eqn:He.
  - right. exists [], es. destruct e; try discriminate He.
    split; [reflexivity | constructor].
  - destruct IH as [IH | (es1 & es2 & -> & IH)].
    + left. now constructor.
    + right. exists (e :: es1), es2. split; [reflexivity | now constructor].
Qed.

Lemma run_app nav (es1 es2 : list Event) (f : Farmer.t) :
  run nav (es1 ++ es2) f = run nav es2 (run nav es1 f).
Proof. revert f. induction es1 as [| e es1 IH]; intros f; cbn; auto. Qed.

(** C6. An [onFire] handled while the cooldown flag is set creates no
    Bullet and leaves the flag set; an [onFire] that creates a Bullet
    found the flag clear, creates exactly one and sets the flag; and
    whenever two [onFire] events each create a Bullet, the events
    delivered between them contain a run of the deferred cooldown
    callback, which found the flag set and cleared it. *)
Theorem onFire_cooldown_gate nav :
  (forall f, gunCooldown f = true ->
     bullets (onFire f) = bullets f /\ gunCooldown (onFire f) = true)
  /\ (forall f, bullets (onFire f) <> bullets f ->
        gunCooldown f = false
        /\ gunCooldown (onFire f) = true
        /\ exists b, bullets (onFire f) = bullets f ++ [b])
  /\ (forall f es,
        bullets (onFire f) <> bullets f ->
        bullets (onFire (run nav es (onFire f)))
          <> bullets (run nav es (onFire f)) ->
        exists es1 es2,
          es = es1 ++ EvCooldownElapsed :: es2
          /\ gunCooldown (run nav es1 (onFire f)) = true
          /\ gunCooldown (step nav EvCooldownElapsed
                            (run nav es1 (onFire f))) = false).
Proof.
  assert (Hfirst : forall f, bullets (onFire f) <> bullets f ->
            gunCooldown f = false).
  { intros f Hnew. destruct (gunCooldown f) eqn:Hcd; [| reflexivity].
    destruct (onFire_during_cooldown f Hcd) as (Hb & _). contradiction. }
  split; [| split].
  - intros f Hcd. destruct (onFire_during_cooldown f Hcd) as (? & ? & ?). auto.
  - intros f Hnew. pose proof (Hfirst f Hnew) as Hcd.
    destruct (onFire_when_ready f Hcd) as (Hb & Hc & _). eauto.
  - intros f es Hnew1 Hnew2.
    pose proof (Hfirst f Hnew1) as Hcd.
    destruct (onFire_when_ready f Hcd) as (_ & Hc & Hp).
    pose proof (Hfirst _ Hnew2) as Hcd2.
    destruct (first_cooldownElapsed es) as [Hnone | (es1 & es2 & Hes & Hes1)].
    + destruct (run_during_cooldown nav es _ Hnone Hc) as (Hc' & _).
      congruence.
    + exists es1, es2. split; [exact Hes |].
      destruct (run_during_cooldown nav es1 _ Hes1 Hc) as (Hc' & _ & Hp').
      split; [exact Hc' |].
      cbn [step]. rewrite Hp', Hp. reflexivity.
Qed.

Lemma onFire_cooldown_gate_witness :
  length (bullets (run navId [EvFire; EvFire; EvUpdate (1 # 60); EvFire]
                     farmer0)) = 1%nat
  /\ exists es1 es2,
       [EvFire; EvCooldownElapsed; EvMoveEnd] = es1 ++ EvCooldownElapsed :: es2
       /\ gunCooldown (run navId es1 (onFire farmer0)) = true.
Proof.
  destruct (onFire_cooldown_gate navId) as (Hset & _ & Hbetween).
  split.
  - cbn [run step].
    destruct (Hset (onFire farmer0) eq_refl) as (Hb & _).
    vm_compute. reflexivity.
  - destruct (Hbetween farmer0 [EvFire; EvCooldownElapsed; EvMoveEnd])
      as (es1 & es2 & Hes & Hc & _).
    + vm_compute. discriminate.
    + vm_compute. discriminate.
    + exists es1, es2. auto.
Defined.

(** ** The Garden's random spawn points *)

Lemma isFree_spec (n : Garden.TransformNode) :
  Garden.isFree n = true <-> Garden.getChildMeshes n = [].
Proof.
  unfold Garden.isFree. rewrite Nat.eqb_eq.
  destruct (Garden.getChildMeshes n); cbn; split; congruence.
Qed.

Lemma arrayGet_In {A : Type} (arr : list A) (i : Z) (x : A) :
  Garden.arrayGet arr i = Some x -> In x arr.
Proof.
  unfold Garden.arrayGet. destruct (i <? 0)%Z; [discriminate |].
  apply nth_error_In.
Qed.

Lemma arrayGet_of_nat {A : Type} (arr : list A) (i : nat) :
  Garden.arrayGet arr (Z.of_nat i) = nth_error arr i.
Proof.
  unfold Garden.arrayGet.
  destruct (Z.ltb_spec (Z.of_nat i) 0) as [Hneg | _]; [lia |].
  now rewrite Nat2Z.id.
Qed.

(** Whatever the loop returns is a free element of the array, and the
    draw count never decreases. *)
Lemma retryLoop_sound rnd (points : list Garden.TransformNode) :
  forall fuel k node n k',
    (forall m, node = Some m -> In m points) ->
    Garden.retryLoop rnd points fuel k node = Some (n, k') ->
    In n points /\ Garden.getChildMeshes n = [] /\ (k <= k')%nat.
Proof.
  induction fuel as [| fuel IH]; intros k node n k' Hnode Hret;
    cbn [Garden.retryLoop] in Hret.
  - destruct node as [m |]; [| discriminate].
    destruct (Garden.isFree m) eqn:Hfree; [| discriminate].
    injection Hret as <- <-.
    split; [now apply Hnode | split; [now apply isFree_spec | lia]].
  - assert (Hbody : forall r,
      Garden.retryLoop rnd points fuel (S k)
        (Garden.arrayGet points
           (rnd k 0%Z (Z.of_nat (length points) - 1)%Z)) = Some r ->
      r = (n, k') ->
      In n points /\ Garden.getChildMeshes n = [] /\ (k <= k')%nat).
    { intros r Hr ->. apply IH in Hr.
      - destruct Hr as (? & ? & ?). repeat split; auto; lia.
      - intros m Hm. eapply arrayGet_In, Hm. }
    destruct node as [m |].
    + destruct (Garden.isFree m) eqn:Hfree.
      * injection Hret as <- <-.
        split; [now apply Hnode | split; [now apply isFree_spec | lia]].
      * eapply Hbody; [exact Hret | reflexivity].
    + eapply Hbody; [exact Hret | reflexivity].
Qed.

(** C2. Whenever [getRandomBurrowNode] returns, the node returned is an
    element of the burrow spawn-point array with no child mesh attached;
    likewise for [getRandomCarrotNode] and the carrot spawn-point
    array.  This holds for every random source. *)
Theorem random_node_is_free_spawn_point
  (randomInt : nat -> Z -> Z -> Z) (g : Garden.t) (fuel k : nat)
  (n : Garden.TransformNode) (k' : nat) :
  (Garden.getRandomBurrowNode randomInt g fuel k = Some (n, k') ->
     In n (Garden.burrowSpawnPoints g) /\ Garden.getChildMeshes n = [])
  /\ (Garden.getRandomCarrotNode randomInt g fuel k = Some (n, k') ->
     In n (Garden.carrotSpawnPoints g) /\ Garden.getChildMeshes n = []).
Proof.
  unfold Garden.getRandomBurrowNode, Garden.getRandomCarrotNode.
  split; intros Hret; apply retryLoop_sound in Hret;
    try (intros m Hm; discriminate Hm);
    destruct Hret as (? & ? & _); auto.
Qed.

Lemma random_node_is_free_spawn_point_witness :
  Garden.getRandomBurrowNode cycling garden0 5 0
    = Some (Garden.mkNode 2 false [], 2%nat)
  /\ In (Garden.mkNode 2 false []) (Garden.burrowSpawnPoints garden0)
  /\ Garden.getChildMeshes (Garden.mkNode 2 false []) = [].
Proof.
  assert (Hrun : Garden.getRandomBurrowNode cycling garden0 5 0
                 = Some (Garden.mkNode 2 false [], 2%nat))
    by (vm_compute; reflexivity).
  split; [exact Hrun |].
  exact (proj1 (random_node_is_free_spawn_point cycling garden0 5 0
                  (Garden.mkNode 2 false []) 2) Hrun).
Defined.

(** Once the loop has returned, more iterations change nothing. *)
Lemma retryLoop_more_fuel rnd (points : list Garden.TransformNode) :
  forall fuel fuel' k node r,
    (fuel <= fuel')%nat ->
    Garden.retryLoop rnd points fuel k node = Some r ->
    Garden.retryLoop rnd points fuel' k node = Some r.
Proof.
  induction fuel as [| fuel IH]; intros fuel' k node r Hle Hret.
  - cbn [Garden.retryLoop] in Hret.
    destruct node as [m |]; [| discriminate].
    destruct (Garden.isFree m) eqn:Hfree; [| discriminate].
    destruct fuel'; cbn [Garden.retryLoop]; now rewrite Hfree.
  - destruct fuel' as [| fuel']; [lia |].
    cbn [Garden.retryLoop] in Hret |- *.
    destruct node as [m |]; [destruct (Garden.isFree m); [exact Hret |] |];
      (eapply IH; [lia | exact Hret]).
Qed.

(** If the draw made after [k + j] earlier ones selects a free element,
    the loop started after [k] draws has returned within [j + 1]
    iterations. *)
Lemma retryLoop_returns rnd (points : list Garden.TransformNode) :
  forall j k node n,
    Garden.arrayGet points
      (rnd (k + j)%nat 0%Z (Z.of_nat (length points) - 1)%Z) = Some n ->
    Garden.isFree n = true ->
    exists r, Garden.retryLoop rnd points (S j) k node = Some r.
Proof.
  induction j as [| j IH]; intros k node n Hdraw Hfree;
    cbn [Garden.retryLoop].
  - replace (k + 0)%nat with k in Hdraw by lia. rewrite Hdraw, Hfree.
    destruct node as [m |]; [destruct (Garden.isFree m) |]; eauto.
  - replace (k + S j)%nat with (S k + j)%nat in Hdraw by lia.
    destruct (IH (S k)
                (Garden.arrayGet points
                   (rnd k 0%Z (Z.of_nat (length points) - 1)%Z))
                n Hdraw Hfree) as [r Hr].
    cbn [Garden.retryLoop] in Hr.
    destruct node as [m |]; [destruct (Garden.isFree m) |]; eauto.
Qed.

(** With every element occupied the loop never exits. *)
Lemma retryLoop_diverges rnd (points : list Garden.TransformNode) :
  (forall n, In n points -> Garden.isFree n = false) ->
  forall fuel k node,
    (forall m, node = Some m -> In m points) ->
    Garden.retryLoop rnd points fuel k node = None.
Proof.
  intros Hfull. induction fuel as [| fuel IH]; intros k node Hnode;
    cbn [Garden.retryLoop].
  - destruct node as [m |]; [| reflexivity].
    now rewrite (Hfull m (Hnode m eq_refl)).
  - assert (Hbody :
      Garden.retryLoop rnd points fuel (S k)
        (Garden.arrayGet points
           (rnd k 0%Z (Z.of_nat (length points) - 1)%Z)) = None).
    { apply IH. intros m Hm. eapply arrayGet_In, Hm. }
    destruct node as [m |]; [| exact Hbody].
    now rewrite (Hfull m (Hnode m eq_refl)).
Qed.

Lemma points_termination (points : list Garden.TransformNode)
  (get : Garden.Getter) :
  (forall rnd fuel k, get rnd fuel k = Garden.retryLoop rnd points fuel k None) ->
  ((exists n, In n points /\ Garden.isFree n = true) ->
     exists randomInt,
       Garden.inRange randomInt /\ forall k, Garden.returns get randomInt k)
  /\ (forall randomInt k,
        Garden.eventuallyDrawsFree points randomInt k ->
        Garden.returns get randomInt k)
  /\ ((forall n, In n points -> Garden.isFree n = false) ->
      forall randomInt k, Garden.loopsForever get randomInt k).
Proof.
  intros Hget.
  assert (Hfair : forall randomInt k,
            Garden.eventuallyDrawsFree points randomInt k ->
            Garden.returns get randomInt k).
  { intros rnd k (j & n & Hdraw & Hfree).
    destruct (retryLoop_returns rnd points j k None n Hdraw Hfree) as [r Hr].
    exists r, (S j). intros fuel' Hle. rewrite Hget.
    eapply retryLoop_more_fuel; [exact Hle | exact Hr]. }
  split; [| split; [exact Hfair |]].
  - intros (n & Hin & Hfree).
    apply In_nth_error in Hin. destruct Hin as [i Hi].
    assert (Hlt : (i < length points)%nat)
      by (apply nth_error_Some; congruence).
    exists (fun _ lo hi =>
              if ((lo <=? Z.of_nat i) && (Z.of_nat i <=? hi))%Z
              then Z.of_nat i else lo).
    split.
    + intros k lo hi Hle.
      destruct (Z.leb_spec lo (Z.of_nat i)); cbn [andb];
        [destruct (Z.leb_spec (Z.of_nat i) hi) |]; lia.
    + intros k. apply Hfair. exists 0%nat, n. split; [| exact Hfree].
      destruct (Z.leb_spec 0 (Z.of_nat i)); [| lia].
      destruct (Z.leb_spec (Z.of_nat i) (Z.of_nat (length points) - 1));
        [| lia].
      cbn [andb]. now rewrite arrayGet_of_nat.
  - intros Hfull rnd k fuel. rewrite Hget.
    apply retryLoop_diverges; [exact Hfull |].
    intros m Hm. discriminate Hm.
Qed.

(** C10. With the random source made explicit: if some burrow spawn
    point has no child mesh, [getRandomBurrowNode] returns for some
    random source that respects its bounds, and more generally for
    every random source that at some draw selects a free spawn point;
    if every burrow spawn point has a child mesh, its retry loop never
    exits, whatever the random source.  The same holds for
    [getRandomCarrotNode] over the carrot spawn points. *)
Theorem random_node_termination (g : Garden.t) :
  (((exists n, In n (Garden.burrowSpawnPoints g) /\ Garden.isFree n = true) ->
      exists randomInt,
        Garden.inRange randomInt
        /\ forall k,
             Garden.returns (fun r => Garden.getRandomBurrowNode r g)
               randomInt k)
   /\ (forall randomInt k,
         Garden.eventuallyDrawsFree (Garden.burrowSpawnPoints g) randomInt k ->
         Garden.returns (fun r => Garden.getRandomBurrowNode r g) randomInt k)
   /\ ((forall n, In n (Garden.burrowSpawnPoints g) ->
          Garden.isFree n = false) ->
       forall randomInt k,
         Garden.loopsForever (fun r => Garden.getRandomBurrowNode r g)
           randomInt k))
  /\ (((exists n, In n (Garden.carrotSpawnPoints g)
                  /\ Garden.isFree n = true) ->
      exists randomInt,
        Garden.inRange randomInt
        /\ forall k,
             Garden.returns (fun r => Garden.getRandomCarrotNode r g)
               randomInt k)
   /\ (forall randomInt k,
         Garden.eventuallyDrawsFree (Garden.carrotSpawnPoints g) randomInt k ->
         Garden.returns (fun r => Garden.getRandomCarrotNode r g) randomInt k)
   /\ ((forall n, In n (Garden.carrotSpawnPoints g) ->
          Garden.isFree n = false) ->
       forall randomInt k,
         Garden.loopsForever (fun r => Garden.getRandomCarrotNode r g)
           randomInt k)).
Proof.
  split; apply points_termination; reflexivity.
Qed.

Lemma random_node_termination_witness :
  Garden.returns (fun r => Garden.getRandomBurrowNode r garden0) cycling 0
  /\ Garden.loopsForever (fun r => Garden.getRandomCarrotNode r garden0)
       cycling 0.
Proof.
  destruct (random_node_termination garden0)
    as ((_ & Hfair & _) & (_ & _ & Hloop)).
  split.
  - apply Hfair. exists 1%nat, (Garden.mkNode 2 false []).
    split; vm_compute; reflexivity.
  - apply Hloop. intros n Hin. cbn in Hin.
    destruct Hin as [<- | [<- | []]]; vm_compute; reflexivity.
Defined.

(** ** The Burrows *)

Example worldTwo_burrows : Burrow._burrows worldTwo = [0%nat; 1%nat].
Proof. vm_compute. reflexivity. Qed.

Example worldTwo_objects :
  Burrow.disposeTime <$> Burrow.objects worldTwo !! 0%nat = Some 5
  /\ Burrow.disposeTime <$> Burrow.objects worldTwo !! 1%nat = Some 10
  /\ Burrow.time worldTwo = 6.
Proof. vm_compute. auto. Qed.

(** C3 does not hold of the code.  With two Burrows in the list, the
    first of them past its deadline, one [updateAll] calls [update] on
    the first Burrow only: it disposes itself, the second Burrow moves
    to index 0 of the new list, and the loop, now at index 1, ends
    without having updated it. *)
Theorem updateAll_skips_after_dispose :
  Burrow._burrows worldTwo = [0%nat; 1%nat]
  /\ exists w',
       Burrow.updateAll config0 2 worldTwo = Some (Burrow.Returned w')
       /\ Burrow.calls w' = [Burrow.CallUpdate 0; Burrow.CallDispose 0]
       /\ Burrow.updateCount 0 (Burrow.calls w') = 1%nat
       /\ Burrow.updateCount 1 (Burrow.calls w') = 0%nat
       /\ Burrow._burrows w' = [1%nat].
Proof.
  split; [vm_compute; reflexivity |].
  eexists. split; [vm_compute; reflexivity |].
  repeat split.
Qed.

(** Hence [updateAll] does not, in general, call [update] exactly once
    on every Burrow of the list it starts from. *)
Lemma updateAll_not_exactly_once :
  ~ (forall cfg fuel w w',
       Burrow.updateAll cfg fuel w = Some (Burrow.Returned w') ->
       forall ref, In ref (Burrow._burrows w) ->
         Burrow.updateCount ref (Burrow.calls w')
           = S (Burrow.updateCount ref (Burrow.calls w))).
Proof.
  intros H.
  destruct (Burrow.updateAll config0 2 worldTwo) as [[w' | w'] |] eqn:Hrun;
    [| vm_compute in Hrun; discriminate Hrun
     | vm_compute in Hrun; discriminate Hrun].
  specialize (H config0 2%nat worldTwo w' Hrun 1%nat).
  assert (Hin : In 1%nat (Burrow._burrows worldTwo))
    by (vm_compute; auto).
  specialize (H Hin).
  vm_compute in Hrun. injection Hrun as <-.
  vm_compute in H. discriminate H.
Qed.

(** Unfolding of the field accessors and setters of the Burrow model,
    leaving the finite map of objects alone. *)
Ltac burrow_fields :=
  cbn [Burrow.time Burrow.deltaTime Burrow.objects Burrow.nextRef
       Burrow._burrows Burrow.rabbits Burrow.sounds Burrow.draws
       Burrow.calls Burrow.set_objects Burrow.set_nextRef
       Burrow.set_burrows Burrow.set_rabbits Burrow.set_sounds
       Burrow.set_draws Burrow.set_calls Burrow.modifyObject
       Burrow.parentPosition Burrow.rootDisposed Burrow.spawnTimer
       Burrow.disposeTime Burrow.set_spawnTimer Burrow.set_rootDisposed
       Burrow.worldOf Burrow.threw fst snd] in *.

Lemma Qlt_bool_iff (a b : Q) : Burrow.Qlt_bool a b = true <-> a < b.
Proof.
  unfold Burrow.Qlt_bool. rewrite negb_true_iff. split.
  - intros Hb. apply Qnot_le_lt. intros Hle.
    apply Qle_bool_iff in Hle. congruence.
  - intros Hlt. destruct (Qle_bool b a) eqn:Hb; [| reflexivity].
    apply Qle_bool_iff in Hb. apply Qlt_not_le in Hlt. contradiction.
Qed.

Lemma Qlt_bool_false (a b : Q) : Burrow.Qlt_bool a b = false <-> ~ a < b.
Proof.
  rewrite <- Qlt_bool_iff. destruct (Burrow.Qlt_bool a b); split; congruence.
Qed.

Lemma Qle_bool_false (a b : Q) : Qle_bool a b = false <-> ~ a <= b.
Proof.
  rewrite <- Qle_bool_iff. destruct (Qle_bool a b); split; congruence.
Qed.

(** The effect of [dispose] on each part of the game. *)
Lemma dispose_effect (ref : nat) (w : Burrow.World) :
  Burrow._burrows (Burrow.dispose ref w)
    = filter (fun bur => bur <> ref) (Burrow._burrows w)
  /\ Burrow.objects (Burrow.dispose ref w)
       = alter (Burrow.set_rootDisposed true) ref (Burrow.objects w)
  /\ Burrow.calls (Burrow.dispose ref w)
       = Burrow.calls w ++ [Burrow.CallDispose ref]
  /\ Burrow.rabbits (Burrow.dispose ref w) = Burrow.rabbits w
  /\ Burrow.draws (Burrow.dispose ref w) = Burrow.draws w
  /\ Burrow.time (Burrow.dispose ref w) = Burrow.time w.
Proof. repeat split. Qed.


(** [update] on a Burrow that has not passed its deadline: the timer
    is decremented; if it has run out, a StabberRabbit is spawned and
    the timer reset when the root is still there, and the call throws
    when the root has been disposed. *)
Lemma update_alive cfg (ref : nat) (w : Burrow.World) (b : Burrow.t) :
  Burrow.objects w !! ref = Some b ->
  ~ Burrow.disposeTime b < Burrow.time w ->
  let timer := Burrow.spawnTimer b - Burrow.deltaTime w in
  let o := Burrow.update cfg ref w in
  let w' := Burrow.worldOf o in
  Burrow._burrows w' = Burrow._burrows w
  /\ Burrow.time w' = Burrow.time w
  /\ Burrow.calls w' = Burrow.calls w ++ [Burrow.CallUpdate ref]
  /\ (forall r, r <> ref -> Burrow.objects w' !! r = Burrow.objects w !! r)
  /\ (timer <= 0 -> Burrow.rootDisposed b = false ->
        Burrow.threw o = false
        /\ Burrow.rabbits w' = Burrow.rabbits w ++ [Burrow.parentPosition b]
        /\ Burrow.objects w' !! ref
             = Some (Burrow.set_spawnTimer
                       (Burrow.burrow_randomSpawnFrequency cfg (Burrow.draws w))
                       b)
        /\ Burrow.draws w' = S (Burrow.draws w))
  /\ (timer <= 0 -> Burrow.rootDisposed b = true ->
        Burrow.threw o = true
        /\ Burrow.rabbits w' = Burrow.rabbits w
        /\ Burrow.objects w' !! ref = Some (Burrow.set_spawnTimer timer b)
        /\ Burrow.draws w' = Burrow.draws w)
  /\ (~ timer <= 0 ->
        Burrow.threw o = false
        /\ Burrow.rabbits w' = Burrow.rabbits w
        /\ Burrow.objects w' !! ref = Some (Burrow.set_spawnTimer timer b)
        /\ Burrow.draws w' = Burrow.draws w).
Proof.
  intros Hobj Hnlt timer o w'. subst w' o. unfold Burrow.update.
  burrow_fields. rewrite Hobj. apply Qlt_bool_false in Hnlt. rewrite Hnlt.
  fold timer.
  destruct (Qle_bool timer 0) eqn:Hfire;
    [apply Qle_bool_iff in Hfire; destruct (Burrow.rootDisposed b) eqn:Hroot
    | apply Qle_bool_false in Hfire];
    burrow_fields; split_ands; try reflexivity;
    try (intros r Hr; now rewrite ?lookup_alter_ne by congruence);
    try (intros; discriminate); try (intros; contradiction);
    intros; split_ands; try reflexivity;
    rewrite ?lookup_alter_eq, Hobj; reflexivity.
Qed.

(** The object built by the constructor: its deadline is the time of
    construction plus a drawn time limit, and it is appended to the
    static list under a fresh reference. *)
Lemma create_effect cfg (parent : Burrow.Vector3) (modifier : Q)
  (w : Burrow.World) :
  let ref := fst (Burrow.create cfg parent modifier w) in
  let w' := snd (Burrow.create cfg parent modifier w) in
  ref = Burrow.nextRef w
  /\ Burrow.nextRef w' = S (Burrow.nextRef w)
  /\ Burrow._burrows w' = Burrow._burrows w ++ [ref]
  /\ Burrow.time w' = Burrow.time w
  /\ (exists b,
        Burrow.objects w' !! ref = Some b
        /\ Burrow.disposeTime b
             = Burrow.time w + Burrow.burrow_randomTimeLimit cfg (Burrow.draws w)
        /\ Burrow.parentPosition b = parent
        /\ Burrow.rootDisposed b = false)
  /\ (forall r, r <> ref -> Burrow.objects w' !! r = Burrow.objects w !! r).
Proof.
  cbn zeta. unfold Burrow.create, Burrow.modifyDifficulty. burrow_fields.
  rewrite lookup_insert_eq. burrow_fields.
  destruct (Qeq_bool _ _); burrow_fields;
    (repeat split;
     [ eexists; rewrite lookup_alter_eq, lookup_insert_eq; cbn [fmap option_fmap option_map];
       burrow_fields; repeat split
     | intros r Hr; rewrite lookup_alter_ne, lookup_insert_ne by congruence;
       reflexivity ]).
Qed.

(** No [update] changes the deadline of any Burrow. *)
Lemma update_keeps_disposeTime cfg (ref ref' : nat) (w : Burrow.World)
  (b : Burrow.t) :
  Burrow.objects w !! ref = Some b ->
  exists b',
    Burrow.objects (Burrow.worldOf (Burrow.update cfg ref' w)) !! ref = Some b'
    /\ Burrow.disposeTime b' = Burrow.disposeTime b
    /\ Burrow.parentPosition b' = Burrow.parentPosition b.
Proof.
  intros Hobj. unfold Burrow.update, Burrow.dispose. burrow_fields.
  destruct (Burrow.objects w !! ref') as [b0 |] eqn:Hobj';
    [| burrow_fields; eauto].
  destruct (decide (ref' = ref)) as [-> | Hne].
  - assert (b0 = b) as -> by congruence.
    split_tests; burrow_fields; rewrite ?lookup_alter_eq, Hobj;
      eexists; (split; [reflexivity |]); split; reflexivity.
  - split_tests; burrow_fields; rewrite ?lookup_alter_ne by exact Hne;
      eauto.
Qed.




Lemma disposedRefs_app (cs1 cs2 : list Burrow.Call) :
  Burrow.disposedRefs (cs1 ++ cs2)
    = Burrow.disposedRefs cs1 ++ Burrow.disposedRefs cs2.
Proof. apply flat_map_app. Qed.

Lemma updatedRefs_app (cs1 cs2 : list Burrow.Call) :
  Burrow.updatedRefs (cs1 ++ cs2)
    = Burrow.updatedRefs cs1 ++ Burrow.updatedRefs cs2.
Proof. apply flat_map_app. Qed.

(** Removing a reference that does not occur changes nothing. *)
Lemma filter_absent (ref : nat) (l : list nat) :
  ref ∉ l -> filter (fun bur => bur <> ref) l = l.
Proof.
  induction l as [| x l IH]; intros Hnot; [reflexivity |].
  rewrite filter_cons_True.
  - f_equal. apply IH. intros Hin. apply Hnot. now right.
  - intros ->. apply Hnot. now left.
Qed.

(** In a list of distinct references, removing one that occurs
    shortens the list by exactly one. *)
Lemma filter_removes_one (ref : nat) (l : list nat) :
  NoDup l -> ref ∈ l ->
  S (length (filter (fun bur => bur <> ref) l)) = length l.
Proof.
  induction 1 as [| x l Hx Hnd IH]; intros Hin.
  - inversion Hin.
  - destruct (decide (x = ref)) as [-> | Hne].
    + rewrite filter_cons_False by (intros Hneq; now apply Hneq).
      now rewrite filter_absent.
    + rewrite filter_cons_True by exact Hne. cbn [length]. f_equal.
      apply IH. inversion Hin; subst; [congruence | assumption].
Qed.

(** The constructor keeps the static list well formed. *)
Lemma create_wellFormed cfg (parent : Burrow.Vector3) (modifier : Q)
  (w : Burrow.World) :
  Burrow.wellFormed w ->
  Burrow.wellFormed (snd (Burrow.create cfg parent modifier w)).
Proof.
  intros [Hnd Hrefs].
  destruct (create_effect cfg parent modifier w)
    as (Href & Hnext & Hl & _ & (b & Hb & _) & Hother).
  cbn zeta in *. rewrite Href in *.
  split.
  - rewrite Hl. apply NoDup_app. repeat split; [exact Hnd | | apply NoDup_singleton].
    intros x Hx Hx'. apply list_elem_of_singleton in Hx'. subst x.
    destruct (Hrefs _ Hx) as [Hlt _]. lia.
  - intros r Hr. rewrite Hl in Hr. rewrite Hnext.
    apply elem_of_app in Hr as [Hr | Hr].
    + destruct (Hrefs _ Hr) as [Hlt Hsome]. split; [lia |].
      rewrite Hother by lia. exact Hsome.
    + apply list_elem_of_singleton in Hr. subst r. split; [lia |].
      rewrite Hb. eauto.
Qed.

(** [dispose] keeps the static list well formed. *)
Lemma dispose_wellFormed (ref : nat) (w : Burrow.World) :
  Burrow.wellFormed w -> Burrow.wellFormed (Burrow.dispose ref w).
Proof.
  intros [Hnd Hrefs]. unfold Burrow.wellFormed, Burrow.dispose.
  burrow_fields. split.
  - now apply NoDup_filter.
  - intros r Hr. apply list_elem_of_filter in Hr as [_ Hr].
    destruct (Hrefs _ Hr) as [Hlt Hsome]. split; [exact Hlt |].
    apply lookup_alter_is_Some. exact Hsome.
Qed.

(** With enough iterations [disposeAll] returns; the list is then
    empty, every Burrow that was in it has had [dispose] called and its
    root disposed, and roots disposed earlier stay disposed. *)
Lemma disposeAll_total :
  forall fuel w,
    (length (Burrow._burrows w) <= fuel)%nat ->
    exists w',
      Burrow.disposeAll fuel w = Some w'
      /\ Burrow._burrows w' = []
      /\ (forall r, r ∈ Burrow.disposedRefs (Burrow.calls w)
                    \/ r ∈ Burrow._burrows w ->
                    r ∈ Burrow.disposedRefs (Burrow.calls w'))
      /\ (forall r b, Burrow.objects w !! r = Some b ->
            exists b',
              Burrow.objects w' !! r = Some b'
              /\ (Burrow.rootDisposed b = true \/ r ∈ Burrow._burrows w ->
                  Burrow.rootDisposed b' = true)).
Proof.
  induction fuel as [| fuel IH]; intros w Hlen.
  - destruct (Burrow._burrows w) as [| ref l] eqn:Hl; [| cbn in Hlen; lia].
    exists w. cbn [Burrow.disposeAll]. rewrite Hl.
    repeat split; auto.
    + intros r [Hr | Hr]; [exact Hr | inversion Hr].
    + intros r b Hb. exists b. split; [exact Hb |].
      intros [Hd | Hr]; [exact Hd | inversion Hr].
  - cbn [Burrow.disposeAll].
    destruct (Burrow._burrows w) as [| ref l] eqn:Hl.
    + exists w. rewrite Hl. repeat split; auto.
      * intros r [Hr | Hr]; [exact Hr | inversion Hr].
      * intros r b Hb. exists b. split; [exact Hb |].
        intros [Hd | Hr]; [exact Hd | inversion Hr].
    + destruct (dispose_effect ref w) as (Hl1 & Ho1 & Hc1 & _).
      rewrite Hl in Hl1.
      rewrite filter_cons_False in Hl1 by (intros Hneq; now apply Hneq).
      destruct (IH (Burrow.dispose ref w)) as (w' & Hrun & Hempty & Hcalls & Hobjs).
      { rewrite Hl1. pose proof (length_filter (fun bur => bur <> ref) l).
        cbn [length] in Hlen. lia. }
      exists w'. split; [exact Hrun | split; [exact Hempty | split]].
      * intros r Hr. apply Hcalls. rewrite Hc1, disposedRefs_app.
        cbn [Burrow.disposedRefs flat_map app]. rewrite Hl1.
        destruct (decide (r = ref)) as [-> | Hne].
        -- left. apply elem_of_app. right. now left.
        -- destruct Hr as [Hr | Hr].
           ++ left. apply elem_of_app. now left.
           ++ right. apply list_elem_of_filter. split; [exact Hne |].
              inversion Hr; subst; [congruence | assumption].
      * intros r b Hb.
        destruct (decide (r = ref)) as [-> | Hne].
        -- destruct (Hobjs ref (Burrow.set_rootDisposed true b))
             as (b' & Hb' & Hd).
           { rewrite Ho1, lookup_alter_eq, Hb. reflexivity. }
           exists b'. split; [exact Hb' |]. intros _. apply Hd. now left.
        -- destruct (Hobjs r b) as (b' & Hb' & Hd).
           { rewrite Ho1, lookup_alter_ne by congruence. exact Hb. }
           exists b'. split; [exact Hb' |].
           intros [Hdis | Hr]; apply Hd; [now left | right].
           rewrite Hl1. apply list_elem_of_filter. split; [exact Hne |].
           inversion Hr; subst; [congruence | assumption].
Qed.

(** On a list of distinct references [disposeAll] calls [dispose]
    exactly once on each Burrow, in list order. *)
Lemma disposeAll_calls :
  forall l w,
    Burrow._burrows w = l -> NoDup l ->
    exists w',
      Burrow.disposeAll (length l) w = Some w'
      /\ Burrow.calls w' = Burrow.calls w ++ map Burrow.CallDispose l.
Proof.
  induction l as [| ref l IH]; intros w Hl Hnd.
  - exists w. cbn [Burrow.disposeAll length map]. rewrite Hl, app_nil_r. auto.
  - cbn [Burrow.disposeAll length]. rewrite Hl.
    apply NoDup_cons in Hnd as [Hnot Hnd].
    destruct (dispose_effect ref w) as (Hl1 & _ & Hc1 & _).
    rewrite Hl in Hl1.
    rewrite filter_cons_False in Hl1 by (intros Hneq; now apply Hneq).
    rewrite filter_absent in Hl1 by exact Hnot.
    destruct (IH (Burrow.dispose ref w) Hl1 Hnd) as (w' & Hrun & Hcalls).
    exists w'. split; [exact Hrun |].
    rewrite Hcalls, Hc1, <- app_assoc. reflexivity.
Qed.

(** C7. The constructor appends the new Burrow to the static list;
    [dispose] removes that Burrow from the list and leaves every other
    one in place (the list, whose references are distinct, loses
    exactly one element); and [disposeAll] returns, having disposed
    every Burrow of the list, with the list empty. *)
Theorem burrow_static_list cfg :
  (forall parent modifier w,
     Burrow._burrows (snd (Burrow.create cfg parent modifier w))
       = Burrow._burrows w ++ [fst (Burrow.create cfg parent modifier w)])
  /\ (forall ref w,
        Burrow._burrows (Burrow.dispose ref w)
          = filter (fun bur => bur <> ref) (Burrow._burrows w)
        /\ (ref ∉ Burrow._burrows (Burrow.dispose ref w))
        /\ (forall r, r <> ref ->
              (r ∈ Burrow._burrows (Burrow.dispose ref w)
               <-> r ∈ Burrow._burrows w))
        /\ (NoDup (Burrow._burrows w) -> ref ∈ Burrow._burrows w ->
              S (length (Burrow._burrows (Burrow.dispose ref w)))
                = length (Burrow._burrows w)))
  /\ (forall w,
        exists w',
          Burrow.disposeAll (length (Burrow._burrows w)) w = Some w'
          /\ Burrow._burrows w' = []
          /\ (forall r, r ∈ Burrow._burrows w ->
                r ∈ Burrow.disposedRefs (Burrow.calls w'))
          /\ (forall r b, r ∈ Burrow._burrows w ->
                Burrow.objects w !! r = Some b ->
                exists b',
                  Burrow.objects w' !! r = Some b'
                  /\ Burrow.rootDisposed b' = true)
          /\ (NoDup (Burrow._burrows w) ->
                Burrow.calls w'
                  = Burrow.calls w
                    ++ map Burrow.CallDispose (Burrow._burrows w))).
Proof.
  split; [| split].
  - intros parent modifier w.
    destruct (create_effect cfg parent modifier w) as (_ & _ & Hl & _).
    exact Hl.
  - intros ref w. destruct (dispose_effect ref w) as (Hl & _).
    rewrite Hl. repeat split.
    + intros Hin. apply list_elem_of_filter in Hin as [Hne _].
      now apply Hne.
    + intros Hin. now apply list_elem_of_filter in Hin as [_ Hin].
    + intros Hin. now apply list_elem_of_filter.
    + apply filter_removes_one.
  - intros w.
    destruct (disposeAll_total (length (Burrow._burrows w)) w (le_n _))
      as (w' & Hrun & Hempty & Hcalls & Hobjs).
    exists w'. repeat split; auto.
    + intros r b Hr Hb. destruct (Hobjs r b Hb) as (b' & Hb' & Hd). eauto.
    + intros Hnd.
      destruct (disposeAll_calls (Burrow._burrows w) w eq_refl Hnd)
        as (w'' & Hrun' & Hc).
      congruence.
Qed.

Lemma burrow_static_list_witness :
  S (length (Burrow._burrows (Burrow.dispose 0 worldTwo))) = 2%nat
  /\ exists w',
       Burrow.disposeAll 2 worldTwo = Some w'
       /\ Burrow._burrows w' = []
       /\ Burrow.calls w' = [Burrow.CallDispose 0; Burrow.CallDispose 1].
Proof.
  destruct (burrow_static_list config0) as (_ & Hdispose & Hall).
  assert (Hl : Burrow._burrows worldTwo = [0%nat; 1%nat])
    by (vm_compute; reflexivity).
  assert (Hnd : NoDup (Burrow._burrows worldTwo)).
  { rewrite Hl. apply NoDup_cons. split.
    - intros Hin. apply list_elem_of_singleton in Hin. discriminate Hin.
    - apply NoDup_singleton. }
  split.
  - destruct (Hdispose 0%nat worldTwo) as (_ & _ & _ & Hone).
    rewrite Hone; [now rewrite Hl | exact Hnd |].
    rewrite Hl. now left.
  - destruct (Hall worldTwo) as (w' & Hrun & Hempty & _ & _ & Hcalls).
    rewrite Hl in Hrun. exists w'.
    split; [exact Hrun | split; [exact Hempty |]].
    rewrite (Hcalls Hnd), Hl. vm_compute. reflexivity.
Defined.

(** ** What one [update] changes *)

Lemma update_time cfg (ref : nat) (w : Burrow.World) :
  Burrow.time (Burrow.worldOf (Burrow.update cfg ref w)) = Burrow.time w.
Proof.
  unfold Burrow.update, Burrow.dispose. burrow_fields.
  destruct (Burrow.objects w !! ref); [| reflexivity].
  split_tests; reflexivity.
Qed.

Lemma update_nextRef cfg (ref : nat) (w : Burrow.World) :
  Burrow.nextRef (Burrow.worldOf (Burrow.update cfg ref w))
    = Burrow.nextRef w.
Proof.
  unfold Burrow.update, Burrow.dispose. burrow_fields.
  destruct (Burrow.objects w !! ref); [| reflexivity].
  split_tests; reflexivity.
Qed.

Lemma update_disposeTime_lookup cfg (ref r : nat) (w : Burrow.World) :
  Burrow.disposeTime
    <$> Burrow.objects (Burrow.worldOf (Burrow.update cfg ref w)) !! r
    = Burrow.disposeTime <$> Burrow.objects w !! r.
Proof.
  unfold Burrow.update, Burrow.dispose. burrow_fields.
  destruct (Burrow.objects w !! ref); [| reflexivity].
  split_tests; burrow_fields; rewrite ?lookup_alter;
    repeat case_decide; subst; destruct (Burrow.objects w !! r);
    reflexivity.
Qed.

(** No [update] changes which Burrows are past their deadline. *)
Lemma update_expiredIn cfg (ref r : nat) (w : Burrow.World) :
  Burrow.expiredIn (Burrow.worldOf (Burrow.update cfg ref w)) r
    = Burrow.expiredIn w r.
Proof.
  pose proof (update_disposeTime_lookup cfg ref r w) as Hd.
  unfold Burrow.expiredIn. rewrite update_time.
  destruct (Burrow.objects (Burrow.worldOf (Burrow.update cfg ref w)) !! r),
    (Burrow.objects w !! r); cbn in Hd; congruence.
Qed.

(** The list after one [update]: the Burrow is filtered out if it is
    past its deadline, and the list is left alone otherwise. *)
Lemma update_burrows cfg (ref : nat) (w : Burrow.World) :
  Burrow._burrows (Burrow.worldOf (Burrow.update cfg ref w))
    = if Burrow.expiredIn w ref
      then filter (fun bur => bur <> ref) (Burrow._burrows w)
      else Burrow._burrows w.
Proof.
  unfold Burrow.update, Burrow.dispose, Burrow.expiredIn. burrow_fields.
  destruct (Burrow.objects w !! ref); [| reflexivity].
  split_tests; reflexivity.
Qed.

Lemma update_updatedRefs cfg (ref : nat) (w : Burrow.World) :
  Burrow.updatedRefs (Burrow.calls (Burrow.worldOf (Burrow.update cfg ref w)))
    = Burrow.updatedRefs (Burrow.calls w) ++ [ref].
Proof.
  unfold Burrow.update, Burrow.dispose. burrow_fields.
  destruct (Burrow.objects w !! ref);
    [split_tests |]; burrow_fields; rewrite !updatedRefs_app;
    cbn; rewrite ?app_nil_r; reflexivity.
Qed.

(** One [update] spawns at most one StabberRabbit. *)
Lemma update_rabbits cfg (ref : nat) (w : Burrow.World) :
  (length (Burrow.rabbits (Burrow.worldOf (Burrow.update cfg ref w)))
   <= S (length (Burrow.rabbits w)))%nat.
Proof.
  unfold Burrow.update, Burrow.dispose. burrow_fields.
  destruct (Burrow.objects w !! ref);
    [split_tests |]; burrow_fields; rewrite ?length_app; cbn; lia.
Qed.

Lemma update_when_expired cfg (ref : nat) (w : Burrow.World) :
  Burrow.expiredIn w ref = true ->
  Burrow.update cfg ref w
    = Burrow.Returned
        (Burrow.dispose ref
           (Burrow.set_calls (Burrow.calls w ++ [Burrow.CallUpdate ref]) w)).
Proof.
  unfold Burrow.expiredIn, Burrow.update. burrow_fields.
  destruct (Burrow.objects w !! ref); [| discriminate].
  now intros ->.
Qed.

Lemma update_rootDisposed_lookup cfg (ref r : nat) (w : Burrow.World) :
  Burrow.expiredIn w ref = false ->
  Burrow.rootDisposed
    <$> Burrow.objects (Burrow.worldOf (Burrow.update cfg ref w)) !! r
    = Burrow.rootDisposed <$> Burrow.objects w !! r.
Proof.
  unfold Burrow.expiredIn, Burrow.update. burrow_fields.
  destruct (Burrow.objects w !! ref); [| reflexivity].
  intros ->. split_tests; burrow_fields; rewrite ?lookup_alter;
    repeat case_decide; subst; destruct (Burrow.objects w !! r);
    reflexivity.
Qed.

(** [update] throws only on a Burrow whose root has been disposed. *)
Lemma update_throws_only_disposed cfg (ref : nat) (w : Burrow.World) :
  Burrow.threw (Burrow.update cfg ref w) = true ->
  exists b,
    Burrow.objects w !! ref = Some b /\ Burrow.rootDisposed b = true.
Proof.
  unfold Burrow.update. burrow_fields.
  destruct (Burrow.objects w !! ref) as [b |]; [| discriminate].
  destruct (Burrow.rootDisposed b) eqn:Hroot; [eauto |].
  split_tests; discriminate.
Qed.

(** On a Burrow of a list whose roots are all there, [update]
    returns. *)
Lemma update_returns cfg (ref : nat) (w : Burrow.World) :
  Burrow.listedLive w -> ref ∈ Burrow._burrows w ->
  Burrow.update cfg ref w
    = Burrow.Returned (Burrow.worldOf (Burrow.update cfg ref w)).
Proof.
  intros Hlive Hin.
  destruct (Burrow.update cfg ref w) as [w' | w'] eqn:Hup; [reflexivity |].
  destruct (update_throws_only_disposed cfg ref w) as (b & Hb & Hroot);
    [now rewrite Hup |].
  rewrite (Hlive ref b Hin Hb) in Hroot. discriminate Hroot.
Qed.

(** [update] leaves no disposed root in the list. *)
Lemma update_listedLive cfg (ref : nat) (w : Burrow.World) :
  Burrow.listedLive w ->
  Burrow.listedLive (Burrow.worldOf (Burrow.update cfg ref w)).
Proof.
  intros Hlive. destruct (Burrow.expiredIn w ref) eqn:Hexp.
  - rewrite (update_when_expired cfg ref w Hexp). cbn [Burrow.worldOf].
    intros r b Hr Hb. unfold Burrow.dispose in Hr, Hb. burrow_fields.
    apply list_elem_of_filter in Hr as [Hne Hr].
    rewrite lookup_alter_ne in Hb by congruence. exact (Hlive r b Hr Hb).
  - intros r b' Hr Hb'.
    pose proof (update_burrows cfg ref w) as Hl. rewrite Hexp in Hl.
    rewrite Hl in Hr.
    pose proof (update_rootDisposed_lookup cfg ref r w Hexp) as Hd.
    rewrite Hb' in Hd.
    destruct (Burrow.objects w !! r) as [b |] eqn:Hb; [| discriminate].
    cbn in Hd. injection Hd as ->. exact (Hlive r b Hr Hb).
Qed.

(** [update] keeps the static list well formed. *)
Lemma update_wellFormed cfg (ref : nat) (w : Burrow.World) :
  Burrow.wellFormed w ->
  Burrow.wellFormed (Burrow.worldOf (Burrow.update cfg ref w)).
Proof.
  intros Hwf. unfold Burrow.update. burrow_fields.
  destruct (Burrow.objects w !! ref) as [b |] eqn:Hobj; [| exact Hwf].
  destruct (Burrow.Qlt_bool _ _).
  - apply dispose_wellFormed. exact Hwf.
  - destruct Hwf as [Hnd Hrefs].
    split_tests; split; burrow_fields; try exact Hnd;
      intros r Hr; destruct (Hrefs r Hr) as [Hlt Hsome];
      (split; [exact Hlt |]);
      repeat apply lookup_alter_is_Some; exact Hsome.
Qed.

(** ** [updateAll] when no Burrow disposes itself *)

Lemma update_no_dispose cfg (ref : nat) (w : Burrow.World) :
  Burrow.noneExpired w -> ref ∈ Burrow._burrows w ->
  Burrow._burrows (Burrow.worldOf (Burrow.update cfg ref w))
    = Burrow._burrows w
  /\ Burrow.calls (Burrow.worldOf (Burrow.update cfg ref w))
       = Burrow.calls w ++ [Burrow.CallUpdate ref]
  /\ Burrow.noneExpired (Burrow.worldOf (Burrow.update cfg ref w)).
Proof.
  intros Hnone Hin.
  destruct (Burrow.objects w !! ref) as [b |] eqn:Hobj.
  - pose proof (Hnone ref b Hin Hobj) as Hnlt.
    destruct (update_alive cfg ref w b Hobj Hnlt)
      as (Hl & Ht & Hc & Hother & _).
    split; [exact Hl | split; [exact Hc |]].
    intros r b' Hr Hb'. rewrite Hl in Hr. rewrite Ht.
    destruct (decide (r = ref)) as [-> | Hne].
    + destruct (update_keeps_disposeTime cfg ref ref w b Hobj)
        as (b'' & Hb'' & Hd & _).
      assert (b'' = b') as -> by congruence.
      rewrite Hd. exact Hnlt.
    + rewrite Hother in Hb' by exact Hne. exact (Hnone r b' Hr Hb').
  - unfold Burrow.update. burrow_fields. rewrite Hobj. burrow_fields.
    repeat split. exact Hnone.
Qed.

(** As long as no Burrow of the list is past its deadline and every
    root is there, the loop of [updateAll] returns after as many
    iterations as there are Burrows left, leaves the list as it was
    and calls [update] once on each remaining Burrow, in list order. *)
Lemma updateAllFrom_no_dispose cfg :
  forall fuel i w,
    Burrow.noneExpired w ->
    Burrow.listedLive w ->
    (length (Burrow._burrows w) - i <= fuel)%nat ->
    exists w',
      Burrow.updateAllFrom cfg fuel i w = Some (Burrow.Returned w')
      /\ Burrow._burrows w' = Burrow._burrows w
      /\ Burrow.updatedRefs (Burrow.calls w')
           = Burrow.updatedRefs (Burrow.calls w) ++ drop i (Burrow._burrows w).
Proof.
  induction fuel as [| fuel IH]; intros i w Hnone Hlive Hlen;
    cbn [Burrow.updateAllFrom];
    destruct (Burrow._burrows w !! i) as [ref |] eqn:Hi.
  - apply lookup_lt_Some in Hi. lia.
  - exists w. apply lookup_ge_None in Hi.
    rewrite drop_ge, app_nil_r by exact Hi. auto.
  - assert (Hin : ref ∈ Burrow._burrows w)
      by (apply list_elem_of_lookup; eauto).
    destruct (update_no_dispose cfg ref w Hnone Hin) as (Hl & Hc & Hnone').
    pose proof (update_listedLive cfg ref w Hlive) as Hlive'.
    rewrite (update_returns cfg ref w Hlive Hin).
    destruct (IH (S i) (Burrow.worldOf (Burrow.update cfg ref w))
                Hnone' Hlive')
      as (w' & Hrun & Hl' & Hu); [rewrite Hl; lia |].
    exists w'. split; [exact Hrun | split; [congruence |]].
    rewrite Hu, Hc, Hl, updatedRefs_app, <- app_assoc.
    f_equal. cbn. symmetry. now apply drop_S.
  - exists w. apply lookup_ge_None in Hi.
    rewrite drop_ge, app_nil_r by exact Hi. auto.
Qed.

(** X19. When no Burrow of the list is past its deadline (and none has a
    disposed root), [updateAll] updates every Burrow of the list once,
    in order. *)
Lemma updateAll_no_dispose cfg (w : Burrow.World) :
  Burrow.noneExpired w ->
  Burrow.listedLive w ->
  exists w',
    Burrow.updateAll cfg (length (Burrow._burrows w)) w
      = Some (Burrow.Returned w')
    /\ Burrow._burrows w' = Burrow._burrows w
    /\ Burrow.updatedRefs (Burrow.calls w')
         = Burrow.updatedRefs (Burrow.calls w) ++ Burrow._burrows w.
Proof.
  intros Hnone Hlive.
  destruct (updateAllFrom_no_dispose cfg (length (Burrow._burrows w)) 0 w
              Hnone Hlive) as (w' & Hrun & Hl & Hu); [lia |].
  exists w'. auto.
Qed.

Example updateAll_worldYoung :
  exists w',
    Burrow.updateAll config0 2 worldYoung = Some (Burrow.Returned w')
    /\ Burrow.updatedRefs (Burrow.calls w') = [0%nat; 1%nat].
Proof. eexists. split; vm_compute; reflexivity. Qed.

(** * Further properties of the code *)

(** ** Healing and damage through [modifyHealth] *)

(** The three cases of a clamp into a non-empty interval. *)
Lemma Clamp_cases (value lo hi : Q) :
  lo <= hi ->
  (value <= lo /\ Scalar.Clamp value lo hi == lo)
  \/ (lo <= value /\ value <= hi /\ Scalar.Clamp value lo hi == value)
  \/ (hi <= value /\ Scalar.Clamp value lo hi == hi).
Proof.
  intros Hle.
  destruct (Qlt_le_dec value lo) as [Hlo | Hlo].
  - left. split; [lra |]. apply Clamp_below; lra.
  - destruct (Qlt_le_dec hi value) as [Hhi | Hhi].
    + right. right. split; [lra |]. apply Clamp_above; lra.
    + right. left. split; [lra |]. split; [lra |]. now apply Clamp_inside.
Qed.

(** X2. On a Farmer whose health is within its bounds, [modifyHealth] with
    a value that is not negative never lowers the health, and with a
    value that is not positive never raises it. *)
Theorem modifyHealth_direction (value : Q) (f : Farmer.t) :
  healthBounded f ->
  (0 <= value -> health f <= health (modifyHealth value f))
  /\ (value <= 0 -> health (modifyHealth value f) <= health f).
Proof.
  intros [Hlo Hhi]. cbn [modifyHealth set_health health maxHealth].
  assert (Hm : 0 <= maxHealth f) by lra.
  destruct (Clamp_cases (health f + value) 0 (maxHealth f) Hm)
    as [(? & E1) | [(? & ? & E1) | (? & E1)]];
    rewrite E1; split; intros; lra.
Qed.

Lemma modifyHealth_direction_witness :
  health farmerHurt <= health (modifyHealth 500 farmerHurt)
  /\ health (modifyHealth (-(500)) farmerHurt) <= health farmerHurt.
Proof.
  assert (Hb : healthBounded farmerHurt)
    by (split; vm_compute; discriminate).
  destruct (modifyHealth_direction 500 farmerHurt Hb) as [Hup _].
  destruct (modifyHealth_direction (-(500)) farmerHurt Hb) as [_ Hdown].
  split; [apply Hup | apply Hdown]; vm_compute; discriminate.
Defined.

(** X3. Raising the maximum of a Farmer whose health is within its bounds
    never lowers the health and keeps it within the new bounds. *)
Theorem modifyMaxHealth_raise (value : Q) (f : Farmer.t) :
  healthBounded f ->
  0 <= value ->
  health f <= health (modifyMaxHealth value f)
  /\ healthBounded (modifyMaxHealth value f).
Proof.
  intros [Hlo Hhi] Hv. unfold healthBounded.
  cbn [modifyMaxHealth modifyHealth set_maxHealth set_health health maxHealth].
  assert (Hm : 0 <= maxHealth f + value) by lra.
  destruct (Clamp_cases (health f + health f) 0 (maxHealth f + value) Hm)
    as [(? & E1) | [(? & ? & E1) | (? & E1)]];
    rewrite E1; repeat split; lra.
Qed.

Lemma modifyMaxHealth_raise_witness :
  health farmerHurt <= health (modifyMaxHealth 10 farmerHurt)
  /\ healthBounded (modifyMaxHealth 10 farmerHurt).
Proof.
  apply (modifyMaxHealth_raise 10 farmerHurt).
  - split; vm_compute; discriminate.
  - vm_compute; discriminate.
Defined.

(** ** The hit timer *)

(** Unfolding of the Farmer's handlers and of its field accessors and
    setters, leaving arithmetic alone. *)
Ltac farmer_fields :=
  cbn [controller gunCooldown isMoving isFiring animator weaponAnimator
       hitTimer position facing maxHealth health movementSpeed weaponDamage
       weaponRange weaponSpeed bullets pendingTimeouts radarUpdates
       set_controller set_gunCooldown set_isMoving set_isFiring set_animator
       set_weaponAnimator set_hitTimer set_position set_facing set_maxHealth
       set_health set_movementSpeed set_weaponDamage set_weaponRange
       set_weaponSpeed set_bullets set_pendingTimeouts set_radarUpdates
       negb andb plays play disabled] in *.

Ltac farmer_step :=
  cbn [step];
  unfold onMove, onMoveEnd, onFire, onFireEnd, onRotate, cooldownCallback,
    update, onCollide, modifyMaxHealth, modifyHealth, modifyMovementSpeed,
    modifyWeaponDamage, modifyWeaponRange, modifyWeaponSpeed;
  split_tests; farmer_fields.

(** A registered hit rearms the hit timer to a quarter of a second. *)
Lemma onCollide_hitTimer (c : BaseCollidable) (f : Farmer.t) :
  hitRegisters c f = true -> hitTimer (onCollide c f) = 1 # 4.
Proof. intros Hreg. unfold onCollide. now rewrite Hreg. Qed.

(** A hit registers only once the hit timer has run out. *)
Lemma hitRegisters_timer (c : BaseCollidable) (f : Farmer.t) :
  hitRegisters c f = true -> hitTimer f <= 0.
Proof.
  destruct c as [attacking damage |]; cbn [hitRegisters]; [| discriminate].
  intros Hreg. apply andb_true_iff in Hreg as [_ Hle].
  now apply Qle_bool_iff.
Qed.

(** Only [update] and a registered hit write the hit timer. *)
Lemma step_keeps_hitTimer nav (e : Event) (f : Farmer.t) :
  isUpdate e = false ->
  0 < hitTimer f ->
  hitTimer (step nav e f) = hitTimer f.
Proof.
  intros He Hpos. destruct e; try discriminate He;
    try (farmer_step; reflexivity).
  - cbn [step]. destruct (pendingTimeouts f); reflexivity.
  - cbn [step]. unfold onCollide.
    destruct (hitRegisters c f) eqn:Hreg; [| reflexivity].
    apply hitRegisters_timer in Hreg. lra.
Qed.

Lemma run_keeps_hitTimer nav (es : list Event) (f : Farmer.t) :
  Forall (fun e => isUpdate e = false) es ->
  0 < hitTimer f ->
  hitTimer (run nav es f) = hitTimer f.
Proof.
  intros Hes. revert f.
  induction Hes as [| e es He _ IH]; intros f Hpos; cbn [run];
    [reflexivity |].
  pose proof (step_keeps_hitTimer nav e f He Hpos) as Hstep.
  rewrite IH; [exact Hstep | now rewrite Hstep].
Qed.

(** X4. One hit per frame.  After a hit has registered, no further
    collision registers before the next [update]: whatever other
    events are delivered in between, [onCollide] changes nothing, so
    several attackers reaching the Farmer between two frame updates
    cost the damage of the first one only. *)
Theorem hit_once_between_updates nav (c c' : BaseCollidable)
  (es : list Event) (f : Farmer.t) :
  hitRegisters c f = true ->
  Forall (fun e => isUpdate e = false) es ->
  hitRegisters c' (run nav es (onCollide c f)) = false
  /\ onCollide c' (run nav es (onCollide c f)) = run nav es (onCollide c f).
Proof.
  intros Hreg Hes.
  assert (Htimer : hitTimer (run nav es (onCollide c f)) = 1 # 4).
  { rewrite run_keeps_hitTimer; [now apply onCollide_hitTimer | exact Hes |].
    rewrite (onCollide_hitTimer c f Hreg). reflexivity. }
  assert (Hno : hitRegisters c' (run nav es (onCollide c f)) = false).
  { destruct (hitRegisters c' (run nav es (onCollide c f))) eqn:Hreg';
      [| reflexivity].
    apply hitRegisters_timer in Hreg'. rewrite Htimer in Hreg'.
    now contradiction Hreg'. }
  split; [exact Hno |]. unfold onCollide at 1. now rewrite Hno.
Qed.

Lemma hit_once_between_updates_witness :
  health (onCollide (StabberRabbit true 4)
            (run navId [EvFire; EvCollide (StabberRabbit true 4); EvMoveEnd]
               (onCollide (StabberRabbit true 3) farmerWeak))) == 2.
Proof.
  destruct (hit_once_between_updates navId (StabberRabbit true 3)
              (StabberRabbit true 4)
              [EvFire; EvCollide (StabberRabbit true 4); EvMoveEnd] farmerWeak)
    as [_ Hsame].
  - reflexivity.
  - repeat constructor.
  - rewrite Hsame. vm_compute. reflexivity.
Defined.

(** ** The controller, the cooldown and the stats over whole runs *)

Ltac farmer_cases :=
  cbn [step];
  try match goal with
      | |- context [match pendingTimeouts ?f with _ => _ end] =>
          destruct (pendingTimeouts f) eqn:?
      end;
  unfold onMove, onMoveEnd, onFire, onFireEnd, onRotate, cooldownCallback,
    update, onCollide, modifyMaxHealth, modifyHealth, modifyMovementSpeed,
    modifyWeaponDamage, modifyWeaponRange, modifyWeaponSpeed;
  split_tests; farmer_fields.

Lemma step_keeps_disabled nav (e : Event) (f : Farmer.t) :
  disabled (controller f) = true ->
  disabled (controller (step nav e f)) = true.
Proof. intros Hd. destruct e; farmer_cases; auto. Qed.

Lemma run_keeps_disabled nav (es : list Event) (f : Farmer.t) :
  disabled (controller f) = true ->
  disabled (controller (run nav es f)) = true.
Proof.
  revert f. induction es as [| e es IH]; intros f Hd; cbn [run]; [exact Hd |].
  apply IH, step_keeps_disabled, Hd.
Qed.

(** X5. Nothing in the Farmer re-enables the character controller: once
    disabled it stays disabled through every later event, and the
    first frame update that finds [health <= 0] disables it, also if
    the health is restored afterwards. *)
Theorem controller_stays_disabled nav :
  (forall es f,
     disabled (controller f) = true ->
     disabled (controller (run nav es f)) = true)
  /\ (forall es1 dt es2 f,
        health (run nav es1 f) <= 0 ->
        disabled (controller (run nav (es1 ++ EvUpdate dt :: es2) f)) = true).
Proof.
  split; [apply run_keeps_disabled |].
  intros es1 dt es2 f Hdead. rewrite run_app. cbn [run].
  apply run_keeps_disabled. cbn [step]. unfold update.
  apply Qle_bool_iff in Hdead. now rewrite Hdead.
Qed.

Lemma controller_stays_disabled_witness :
  disabled (controller
              (run navId
                 ([EvCollide (StabberRabbit true 10)]
                  ++ EvUpdate (1 # 60)
                     :: [EvModifyHealth 50; EvUpdate (1 # 60); EvFire])
                 farmerWeak)) = true.
Proof.
  destruct (controller_stays_disabled navId) as [_ Hdead].
  apply Hdead. vm_compute. discriminate.
Defined.

Lemma step_cooldownConsistent nav (e : Event) (f : Farmer.t) :
  cooldownConsistent f -> cooldownConsistent (step nav e f).
Proof.
  unfold cooldownConsistent. intros Hc.
  destruct e; farmer_cases; try exact Hc;
    destruct (gunCooldown f); congruence.
Qed.

(** X6. The cooldown flag and [window.setTimeout] stay in step: starting
    from a Farmer as constructed, after any sequence of events a
    cooldown callback is pending exactly when the flag is set, so at
    most one callback is ever pending. *)
Theorem cooldown_single_pending nav (es : list Event) (f : Farmer.t) :
  cooldownConsistent f ->
  cooldownConsistent (run nav es f)
  /\ (pendingTimeouts (run nav es f) <= 1)%nat.
Proof.
  intros Hc.
  assert (Hrun : cooldownConsistent (run nav es f)).
  { revert f Hc. induction es as [| e es IH]; intros f Hc; cbn [run];
      [exact Hc |]. apply IH, step_cooldownConsistent, Hc. }
  split; [exact Hrun |]. unfold cooldownConsistent in Hrun.
  rewrite Hrun. destruct (gunCooldown (run nav es f)); lia.
Qed.

Lemma cooldown_single_pending_witness :
  pendingTimeouts
    (run navId [EvFire; EvFire; EvCooldownElapsed; EvFire; EvFire] farmer0)
    = 1%nat.
Proof.
  destruct (cooldown_single_pending navId
              [EvFire; EvFire; EvCooldownElapsed; EvFire; EvFire] farmer0)
    as [Hc _].
  - reflexivity.
  - rewrite Hc. vm_compute. reflexivity.
Defined.

Lemma step_bullets_budget nav (e : Event) (f : Farmer.t) :
  (length (bullets (step nav e f)) + readyCredit (step nav e f)
   <= length (bullets f) + readyCredit f + cooldownsElapsedIn [e])%nat
  /\ (length (bullets (step nav e f))
      <= length (bullets f) + firesIn [e])%nat.
Proof.
  unfold readyCredit.
  destruct e; farmer_cases; cbn [cooldownsElapsedIn firesIn];
    rewrite ?length_app; cbn [length];
    destruct (gunCooldown f); try discriminate; split; lia.
Qed.

(** X7. The rate of fire is bounded by the cooldown: over any sequence of
    events the Farmer creates at most one Bullet more than the number
    of cooldown callbacks that ran, and never more Bullets than there
    were [onFire] events. *)
Theorem bullets_bounded_by_cooldowns nav (es : list Event) (f : Farmer.t) :
  (length (bullets (run nav es f))
   <= length (bullets f) + 1 + cooldownsElapsedIn es)%nat
  /\ (length (bullets (run nav es f)) <= length (bullets f) + firesIn es)%nat.
Proof.
  assert (Hgen : forall es f,
    (length (bullets (run nav es f)) + readyCredit (run nav es f)
     <= length (bullets f) + readyCredit f + cooldownsElapsedIn es)%nat
    /\ (length (bullets (run nav es f))
        <= length (bullets f) + firesIn es)%nat).
  { clear es f. induction es as [| e es IH]; intros f; cbn [run].
    - cbn [cooldownsElapsedIn firesIn]. lia.
    - destruct (IH (step nav e f)) as [IH1 IH2].
      destruct (step_bullets_budget nav e f) as [H1 H2].
      assert (cooldownsElapsedIn (e :: es)
              = (cooldownsElapsedIn [e] + cooldownsElapsedIn es)%nat)
        by (destruct e; reflexivity).
      assert (firesIn (e :: es) = (firesIn [e] + firesIn es)%nat)
        by (destruct e; reflexivity).
      lia. }
  destruct (Hgen es f) as [H1 H2]. split; [| exact H2].
  unfold readyCredit in H1.
  destruct (gunCooldown f), (gunCooldown (run nav es f)); lia.
Qed.

Lemma step_keeps_stats nav (e : Event) (f : Farmer.t) :
  writesStats e = false -> stats (step nav e f) = stats f.
Proof.
  intros He. unfold stats.
  destruct e; try discriminate He; farmer_cases; reflexivity.
Qed.

(** X8. Input handling and frame updates never touch a stat: over any
    sequence of controller events, cooldown callbacks and [update]
    calls the six stats, health included, stay what they were.  Only
    collisions and the [modify...] methods write them. *)
Theorem input_keeps_stats nav (es : list Event) (f : Farmer.t) :
  Forall (fun e => writesStats e = false) es ->
  stats (run nav es f) = stats f.
Proof.
  intros Hes. revert f.
  induction Hes as [| e es He _ IH]; intros f; cbn [run]; [reflexivity |].
  rewrite IH. now apply step_keeps_stats.
Qed.

Lemma input_keeps_stats_witness :
  stats (run navId
           [EvMove (1, 0) 16; EvFire; EvUpdate (1 # 60); EvCooldownElapsed;
            EvRotate (0, 1); EvMoveEnd; EvFireEnd]
           farmer0)
    = stats farmer0.
Proof.
  apply (input_keeps_stats navId).
  repeat constructor.
Defined.

(** ** Which node the Garden's getters return *)

(** The loop returns either the node it was entered with, or the first
    drawn element that is free; every draw before it was rejected. *)
Lemma retryLoop_first_free rnd (points : list Garden.TransformNode) :
  forall fuel k node n k',
    Garden.retryLoop rnd points fuel k node = Some (n, k') ->
    (node = Some n /\ Garden.isFree n = true /\ k' = k)
    \/ (Garden.rejected node
        /\ (k < k')%nat
        /\ (k' - k <= fuel)%nat
        /\ Garden.drawAt rnd points (k' - 1) = Some n
        /\ Garden.isFree n = true
        /\ forall j, (k <= j < k' - 1)%nat ->
             Garden.rejected (Garden.drawAt rnd points j)).
Proof.
  induction fuel as [| fuel IH]; intros k node n k' Hret;
    cbn [Garden.retryLoop] in Hret.
  - destruct node as [m |]; [| discriminate].
    destruct (Garden.isFree m) eqn:Hfree; [| discriminate].
    injection Hret as <- <-. left. auto.
  - assert (Hbody :
      Garden.rejected node ->
      Garden.retryLoop rnd points fuel (S k) (Garden.drawAt rnd points k)
        = Some (n, k') ->
      Garden.rejected node
      /\ (k < k')%nat
      /\ (k' - k <= S fuel)%nat
      /\ Garden.drawAt rnd points (k' - 1) = Some n
      /\ Garden.isFree n = true
      /\ forall j, (k <= j < k' - 1)%nat ->
           Garden.rejected (Garden.drawAt rnd points j)).
    { intros Hrej Hrun. apply IH in Hrun.
      destruct Hrun as [(Hd & Hfree & ->) | (Hrej' & Hlt & Hfuel & Hd & Hfree & Hbefore)].
      - split; [exact Hrej |]. split; [lia |]. split; [lia |].
        replace (S k - 1)%nat with k by lia.
        split; [exact Hd |]. split; [exact Hfree |]. intros j Hj. lia.
      - split; [exact Hrej |]. split; [lia |]. split; [lia |].
        split; [exact Hd |]. split; [exact Hfree |].
        intros j Hj. destruct (decide (j = k)) as [-> | Hne];
          [exact Hrej' | apply Hbefore; lia]. }
    destruct node as [m |].
    + destruct (Garden.isFree m) eqn:Hfree.
      * injection Hret as <- <-. left. auto.
      * right. apply Hbody; [exact Hfree | exact Hret].
    + right. apply Hbody; [exact I | exact Hret].
Qed.

(** X10. What [getRandomBurrowNode] returns is the first free spawn point
    drawn: at least one draw is made, the last draw selected the node
    returned, every earlier draw selected [undefined] or an occupied
    spawn point, and one loop iteration was spent per draw.  The same
    holds for [getRandomCarrotNode]. *)
Theorem random_node_is_first_free_draw
  (randomInt : nat -> Z -> Z -> Z) (g : Garden.t) (fuel k : nat)
  (n : Garden.TransformNode) (k' : nat) :
  (Garden.getRandomBurrowNode randomInt g fuel k = Some (n, k') ->
     (k < k')%nat
     /\ (k' - k <= fuel)%nat
     /\ Garden.drawAt randomInt (Garden.burrowSpawnPoints g) (k' - 1) = Some n
     /\ forall j, (k <= j < k' - 1)%nat ->
          Garden.rejected
            (Garden.drawAt randomInt (Garden.burrowSpawnPoints g) j))
  /\ (Garden.getRandomCarrotNode randomInt g fuel k = Some (n, k') ->
     (k < k')%nat
     /\ (k' - k <= fuel)%nat
     /\ Garden.drawAt randomInt (Garden.carrotSpawnPoints g) (k' - 1) = Some n
     /\ forall j, (k <= j < k' - 1)%nat ->
          Garden.rejected
            (Garden.drawAt randomInt (Garden.carrotSpawnPoints g) j)).
Proof.
  unfold Garden.getRandomBurrowNode, Garden.getRandomCarrotNode.
  split; intros Hret; apply retryLoop_first_free in Hret;
    destruct Hret as [(Hnone & _) | (_ & ? & ? & ? & _ & ?)];
    try discriminate Hnone; auto.
Qed.

Lemma random_node_is_first_free_draw_witness :
  Garden.drawAt cycling (Garden.burrowSpawnPoints garden0) 1
    = Some (Garden.mkNode 2 false [])
  /\ Garden.rejected (Garden.drawAt cycling (Garden.burrowSpawnPoints garden0) 0).
Proof.
  destruct (random_node_is_first_free_draw cycling garden0 5 0
              (Garden.mkNode 2 false []) 2) as [Hburrow _].
  destruct Hburrow as (_ & _ & Hlast & Hbefore); [vm_compute; reflexivity |].
  split; [exact Hlast | apply Hbefore; lia].
Defined.

(** An in-range random source never selects [undefined] from a
    non-empty array. *)
Lemma drawAt_inRange rnd (points : list Garden.TransformNode) (j : nat) :
  Garden.inRange rnd -> points <> [] ->
  exists n, Garden.drawAt rnd points j = Some n /\ In n points.
Proof.
  intros Hrange Hne. unfold Garden.drawAt.
  assert (Hlen : (0 < length points)%nat)
    by (destruct points; [congruence | cbn; lia]).
  destruct (Hrange j 0%Z (Z.of_nat (length points) - 1)%Z) as [Hlo Hhi];
    [lia |].
  set (i := rnd j 0%Z (Z.of_nat (length points) - 1)%Z) in *.
  unfold Garden.arrayGet.
  destruct (Z.ltb_spec i 0) as [Hneg | _]; [lia |].
  destruct (nth_error points (Z.to_nat i)) as [n |] eqn:Hnth.
  - exists n. split; [reflexivity |]. eapply nth_error_In, Hnth.
  - apply nth_error_None in Hnth. lia.
Qed.

(** X11. With a random source that respects its bounds and a non-empty
    array whose spawn points are all free, the getters return after
    exactly one draw, with the element that draw selected. *)
Theorem random_node_single_draw
  (randomInt : nat -> Z -> Z -> Z) (g : Garden.t) (fuel k : nat) :
  Garden.inRange randomInt ->
  (Garden.burrowSpawnPoints g <> [] ->
   (forall n, In n (Garden.burrowSpawnPoints g) -> Garden.isFree n = true) ->
   exists n,
     In n (Garden.burrowSpawnPoints g)
     /\ Garden.drawAt randomInt (Garden.burrowSpawnPoints g) k = Some n
     /\ Garden.getRandomBurrowNode randomInt g (S fuel) k = Some (n, S k))
  /\ (Garden.carrotSpawnPoints g <> [] ->
   (forall n, In n (Garden.carrotSpawnPoints g) -> Garden.isFree n = true) ->
   exists n,
     In n (Garden.carrotSpawnPoints g)
     /\ Garden.drawAt randomInt (Garden.carrotSpawnPoints g) k = Some n
     /\ Garden.getRandomCarrotNode randomInt g (S fuel) k = Some (n, S k)).
Proof.
  intros Hrange.
  assert (Hgen : forall points,
    points <> [] ->
    (forall n, In n points -> Garden.isFree n = true) ->
    exists n, In n points
      /\ Garden.drawAt randomInt points k = Some n
      /\ Garden.retryLoop randomInt points (S fuel) k None = Some (n, S k)).
  { intros points Hne Hfree.
    destruct (drawAt_inRange randomInt points k Hrange Hne) as (n & Hd & Hin).
    exists n. split; [exact Hin |]. split; [exact Hd |].
    cbn [Garden.retryLoop]. unfold Garden.drawAt in Hd. rewrite Hd.
    destruct fuel; cbn [Garden.retryLoop]; now rewrite (Hfree n Hin). }
  split; apply Hgen.
Qed.

Lemma random_node_single_draw_witness :
  exists n,
    Garden.getRandomBurrowNode cycling
      (Garden.mkGarden [Garden.mkNode 1 false []; Garden.mkNode 2 false []] [])
      1 3 = Some (n, 4%nat).
Proof.
  destruct (random_node_single_draw cycling
              (Garden.mkGarden
                 [Garden.mkNode 1 false []; Garden.mkNode 2 false []] [])
              0 3) as [Hburrow _].
  - intros j lo hi Hle. unfold cycling.
    pose proof (Z.mod_pos_bound (Z.of_nat j) (hi - lo + 1)). lia.
  - destruct Hburrow as (n & _ & _ & Hrun).
    + discriminate.
    + intros n [<- | [<- | []]]; reflexivity.
    + exists n. exact Hrun.
Defined.

(** ** The spawn timer set by the constructor *)

(** With a draw in the unit interval, [Scalar.RandomRange] stays
    between its two arguments, in whichever order they come. *)
Lemma RandomRange_between (r lo hi : Q) :
  0 <= r -> r <= 1 ->
  Qmin lo hi <= Scalar.RandomRange r lo hi
  /\ Scalar.RandomRange r lo hi <= Qmax lo hi.
Proof.
  intros Hr0 Hr1. unfold Scalar.RandomRange.
  destruct (Qeq_bool lo hi).
  - split; [apply Q.le_min_l | apply Q.le_max_l].
  - destruct (Qlt_le_dec hi lo) as [Hlt | Hle].
    + rewrite (Q.min_r lo hi), (Q.max_l lo hi) by lra. split; nra.
    + rewrite (Q.min_l lo hi), (Q.max_r lo hi) by lra. split; nra.
Qed.

(** X13. The spawn timer of a newly constructed Burrow lies between
    [Config.burrow.spawnFrequency.max] and the drawn StabberRabbit
    spawn frequency lowered by [Config.burrow.spawnFrequency.min] times
    the difficulty modifier, whichever of the two is the larger,
    provided [Math.random] returns a value in the unit interval. *)
Theorem create_spawnTimer_range cfg (parent : Burrow.Vector3) (modifier : Q)
  (w : Burrow.World) :
  0 <= Burrow.mathRandom cfg (S (S (Burrow.draws w))) ->
  Burrow.mathRandom cfg (S (S (Burrow.draws w))) <= 1 ->
  let newMax :=
    Burrow.stabberRabbit_randomSpawnFrequency cfg (S (Burrow.draws w))
    - Burrow.burrow_spawnFrequency_min cfg * modifier in
  exists b,
    Burrow.objects (snd (Burrow.create cfg parent modifier w))
      !! fst (Burrow.create cfg parent modifier w) = Some b
    /\ Qmin (Burrow.burrow_spawnFrequency_max cfg) newMax
         <= Burrow.spawnTimer b
    /\ Burrow.spawnTimer b
         <= Qmax (Burrow.burrow_spawnFrequency_max cfg) newMax.
Proof.
  intros Hr0 Hr1 newMax.
  pose proof (RandomRange_between _ (Burrow.burrow_spawnFrequency_max cfg)
                newMax Hr0 Hr1) as Hbetween.
  unfold Burrow.create, Burrow.modifyDifficulty. burrow_fields.
  rewrite lookup_insert_eq. burrow_fields. fold newMax.
  destruct (Qeq_bool _ _); burrow_fields;
    rewrite lookup_alter_eq, lookup_insert_eq;
    cbn [fmap option_fmap option_map]; eexists; (split; [reflexivity |]);
    burrow_fields; exact Hbetween.
Qed.

Lemma create_spawnTimer_range_witness :
  exists b,
    Burrow.objects (snd (Burrow.create config0 (1, 0, 1) 1 world0)) !! 0%nat
      = Some b
    /\ 2 <= Burrow.spawnTimer b /\ Burrow.spawnTimer b <= 3.
Proof.
  destruct (create_spawnTimer_range config0 (1, 0, 1) 1 world0)
    as (b & Hb & Hlo & Hhi).
  - vm_compute. discriminate.
  - vm_compute. discriminate.
  - exists b. split; [exact Hb |].
    cbn zeta in Hlo, Hhi. split.
    + eapply Qle_trans; [| exact Hlo]. vm_compute. discriminate.
    + eapply Qle_trans; [exact Hhi |]. vm_compute. discriminate.
Defined.

(** ** [updateAll] when Burrows dispose themselves *)

Lemma updateAllFrom_done cfg (fuel i : nat) (w : Burrow.World) :
  Burrow._burrows w !! i = None ->
  Burrow.updateAllFrom cfg fuel i w = Some (Burrow.Returned w).
Proof. intros Hi. destruct fuel; cbn [Burrow.updateAllFrom]; now rewrite Hi. Qed.

(** Removing an element from a list of distinct elements. *)
Lemma filter_middle (x : nat) (pre rest : list nat) :
  NoDup (pre ++ x :: rest) ->
  filter (fun bur => bur <> x) (pre ++ x :: rest) = pre ++ rest.
Proof.
  intros Hnd. apply NoDup_app in Hnd as (_ & Hdisj & Hnd).
  apply NoDup_cons in Hnd as [Hx _].
  rewrite filter_app, filter_cons_False by (intros Hneq; now apply Hneq).
  rewrite !filter_absent; [reflexivity | exact Hx |].
  intros Hin. apply (Hdisj x Hin). now left.
Qed.

(** The loop of [updateAll] over a list of distinct references to
    Burrows whose roots are there, started at the end of [pre]: it
    returns, having called [update] on the Burrows that [visitOrder]
    selects from the rest of the list, and leaves of that rest what
    [remaining] selects. *)
Lemma updateAllFrom_visit cfg (e : nat -> bool) :
  forall fuel pre suf w,
    Burrow._burrows w = pre ++ suf ->
    NoDup (pre ++ suf) ->
    Burrow.listedLive w ->
    (forall r, Burrow.expiredIn w r = e r) ->
    (length suf <= fuel)%nat ->
    exists w',
      Burrow.updateAllFrom cfg fuel (length pre) w = Some (Burrow.Returned w')
      /\ Burrow.updatedRefs (Burrow.calls w')
           = Burrow.updatedRefs (Burrow.calls w) ++ Burrow.visitOrder e suf
      /\ Burrow._burrows w' = pre ++ Burrow.remaining e suf
      /\ (length (Burrow.rabbits w')
          <= length (Burrow.rabbits w) + length (Burrow.visitOrder e suf))%nat.
Proof.
  assert (Hend : forall fuel pre w,
    Burrow._burrows w = pre ++ [] ->
    exists w',
      Burrow.updateAllFrom cfg fuel (length pre) w = Some (Burrow.Returned w')
      /\ Burrow.updatedRefs (Burrow.calls w')
           = Burrow.updatedRefs (Burrow.calls w) ++ Burrow.visitOrder e []
      /\ Burrow._burrows w' = pre ++ Burrow.remaining e []
      /\ (length (Burrow.rabbits w')
          <= length (Burrow.rabbits w) + length (Burrow.visitOrder e []))%nat).
  { intros fuel pre w Hl. exists w. rewrite updateAllFrom_done.
    - cbn [Burrow.visitOrder Burrow.remaining length].
      rewrite app_nil_r. split_ands; auto. lia.
    - rewrite Hl, app_nil_r. apply lookup_ge_None. lia. }
  induction fuel as [| fuel IH]; intros pre suf w Hl Hnd Hlive He Hlen.
  - destruct suf; [| cbn in Hlen; lia]. now apply Hend.
  - destruct suf as [| x rest]; [now apply Hend |].
    assert (Hin : x ∈ Burrow._burrows w).
    { rewrite Hl. apply elem_of_app. right. now left. }
    cbn [Burrow.updateAllFrom].
    rewrite Hl, list_lookup_middle by reflexivity.
    rewrite (update_returns cfg x w Hlive Hin).
    pose proof (update_listedLive cfg x w Hlive) as Hlive1.
    pose proof (update_burrows cfg x w) as Hl1.
    pose proof (update_updatedRefs cfg x w) as Hu1.
    pose proof (update_rabbits cfg x w) as Hr1.
    assert (He1 : forall r,
              Burrow.expiredIn (Burrow.worldOf (Burrow.update cfg x w)) r
              = e r)
      by (intros r; rewrite update_expiredIn; apply He).
    set (w1 := Burrow.worldOf (Burrow.update cfg x w)) in *.
    rewrite He, Hl in Hl1. cbn [Burrow.visitOrder Burrow.remaining].
    destruct (e x) eqn:Hex.
    + rewrite filter_middle in Hl1 by exact Hnd.
      assert (Hnd1 : NoDup (pre ++ rest)).
      { rewrite <- (filter_middle x pre rest Hnd). now apply NoDup_filter. }
      destruct rest as [| y rest'].
      * exists w1. rewrite updateAllFrom_done.
        -- rewrite Hu1, Hl1. cbn [length]. split_ands; auto. lia.
        -- rewrite Hl1, app_nil_r. apply lookup_ge_None. lia.
      * destruct (IH (pre ++ [y]) rest' w1) as (w' & Hrun & Hu & Hl' & Hr).
        -- rewrite Hl1, <- app_assoc. reflexivity.
        -- rewrite <- app_assoc. exact Hnd1.
        -- exact Hlive1.
        -- exact He1.
        -- cbn [length] in Hlen. lia.
        -- rewrite length_app, Nat.add_1_r in Hrun. exists w'.
           split; [exact Hrun |].
           rewrite Hu, Hu1, Hl', <- !app_assoc. cbn [length app] in *.
           split_ands; auto. lia.
    + destruct (IH (pre ++ [x]) rest w1) as (w' & Hrun & Hu & Hl' & Hr).
      * rewrite Hl1, <- app_assoc. reflexivity.
      * rewrite <- app_assoc. exact Hnd.
      * exact Hlive1.
      * exact He1.
      * cbn [length] in Hlen. lia.
      * rewrite length_app, Nat.add_1_r in Hrun. exists w'.
        split; [exact Hrun |].
        rewrite Hu, Hu1, Hl', <- !app_assoc. cbn [length app] in *.
        split_ands; auto. lia.
Qed.

Lemma visitOrder_facts (e : nat -> bool) :
  forall n l,
    (length l <= n)%nat ->
    Burrow.visitOrder e l `sublist_of` l
    /\ (length l <= 2 * length (Burrow.visitOrder e l))%nat
    /\ head (Burrow.visitOrder e l) = head l.
Proof.
  induction n as [| n IH]; intros l Hlen.
  - destruct l; [| cbn in Hlen; lia]. cbn. split_ands; auto; constructor.
  - destruct l as [| x rest]; [cbn; split_ands; auto; constructor |].
    cbn [Burrow.visitOrder]. cbn [length] in Hlen.
    destruct (e x); [destruct rest as [| y rest'] |].
    + split_ands; [reflexivity | cbn; lia | reflexivity].
    + destruct (IH rest') as (Hs & Hl & _); [cbn [length] in Hlen; lia |].
      split_ands; [| cbn [length]; lia | reflexivity].
      apply sublist_skip, sublist_cons, Hs.
    + destruct (IH rest) as (Hs & Hl & _); [lia |].
      split_ands; [| cbn [length]; lia | reflexivity].
      apply sublist_skip, Hs.
Qed.

Example worldTwo_listedLive : Burrow.listedLive worldTwo.
Proof.
  intros r b Hr Hb.
  assert (Hl : Burrow._burrows worldTwo = [0%nat; 1%nat])
    by (vm_compute; reflexivity).
  rewrite Hl in Hr.
  apply elem_of_cons in Hr as [-> | Hr];
    [| apply list_elem_of_singleton in Hr; subst r];
    vm_compute in Hb; injection Hb as <-; reflexivity.
Qed.

Example worldYoung_listedLive : Burrow.listedLive worldYoung.
Proof.
  intros r b Hr Hb.
  assert (Hl : Burrow._burrows worldYoung = [0%nat; 1%nat])
    by (vm_compute; reflexivity).
  rewrite Hl in Hr.
  apply elem_of_cons in Hr as [-> | Hr];
    [| apply list_elem_of_singleton in Hr; subst r];
    vm_compute in Hb; injection Hb as <-; reflexivity.
Qed.

(** X14. [updateAll], exactly.  Over a list of distinct references to
    Burrows whose roots are there, it returns within as many
    iterations as the list is long; it calls [update] on the first
    Burrow and then on each next one, except that the Burrow following
    one that was past its deadline is passed over; the Burrows past
    their deadline that it reached are gone from the list afterwards,
    the others remain in order. *)
Theorem updateAll_visit_order cfg (w : Burrow.World) :
  NoDup (Burrow._burrows w) ->
  Burrow.listedLive w ->
  exists w',
    Burrow.updateAll cfg (length (Burrow._burrows w)) w
      = Some (Burrow.Returned w')
    /\ Burrow.updatedRefs (Burrow.calls w')
         = Burrow.updatedRefs (Burrow.calls w)
           ++ Burrow.visitOrder (Burrow.expiredIn w) (Burrow._burrows w)
    /\ Burrow._burrows w'
         = Burrow.remaining (Burrow.expiredIn w) (Burrow._burrows w).
Proof.
  intros Hnd Hlive.
  destruct (updateAllFrom_visit cfg (Burrow.expiredIn w)
              (length (Burrow._burrows w)) [] (Burrow._burrows w) w)
    as (w' & Hrun & Hu & Hl & _); auto.
  exists w'. auto.
Qed.

Lemma updateAll_visit_order_witness :
  exists w',
    Burrow.updateAll config0 2 worldTwo = Some (Burrow.Returned w')
    /\ Burrow.updatedRefs (Burrow.calls w') = [0%nat]
    /\ Burrow._burrows w' = [1%nat].
Proof.
  assert (Hl : Burrow._burrows worldTwo = [0%nat; 1%nat])
    by (vm_compute; reflexivity).
  destruct (updateAll_visit_order config0 worldTwo) as (w' & Hrun & Hu & Hl').
  - rewrite Hl. apply NoDup_cons. split; [| apply NoDup_singleton].
    intros Hin. apply list_elem_of_singleton in Hin. discriminate Hin.
  - exact worldTwo_listedLive.
  - exists w'. rewrite Hl in Hrun. split; [exact Hrun |].
    rewrite Hu, Hl'. split; vm_compute; reflexivity.
Defined.

(** X15. What every frame guarantees.  Over a list of distinct references
    to Burrows whose roots are there, [updateAll] returns; the Burrows
    it updates form a sub-sequence of the list, so each is updated at
    most once and none from outside the list; the first Burrow is
    always updated and at least half of them are; and at most one
    StabberRabbit is spawned per Burrow updated. *)
Theorem updateAll_at_most_once cfg (w : Burrow.World) :
  NoDup (Burrow._burrows w) ->
  Burrow.listedLive w ->
  exists w' us,
    Burrow.updateAll cfg (length (Burrow._burrows w)) w
      = Some (Burrow.Returned w')
    /\ Burrow.updatedRefs (Burrow.calls w')
         = Burrow.updatedRefs (Burrow.calls w) ++ us
    /\ us `sublist_of` Burrow._burrows w
    /\ NoDup us
    /\ (length (Burrow._burrows w) <= 2 * length us)%nat
    /\ head us = head (Burrow._burrows w)
    /\ (length (Burrow.rabbits w')
        <= length (Burrow.rabbits w) + length us)%nat.
Proof.
  intros Hnd Hlive.
  destruct (updateAllFrom_visit cfg (Burrow.expiredIn w)
              (length (Burrow._burrows w)) [] (Burrow._burrows w) w)
    as (w' & Hrun & Hu & _ & Hr); auto.
  destruct (visitOrder_facts (Burrow.expiredIn w) _ (Burrow._burrows w)
              (le_n _)) as (Hs & Hlen & Hhead).
  exists w', (Burrow.visitOrder (Burrow.expiredIn w) (Burrow._burrows w)).
  split_ands; auto. eapply sublist_NoDup; eauto.
Qed.

Lemma updateAll_at_most_once_witness :
  exists w' us,
    Burrow.updateAll config0 2 worldYoung = Some (Burrow.Returned w')
    /\ us `sublist_of` [0%nat; 1%nat]
    /\ (2 <= 2 * length us)%nat.
Proof.
  assert (Hl : Burrow._burrows worldYoung = [0%nat; 1%nat])
    by (vm_compute; reflexivity).
  destruct (updateAll_at_most_once config0 worldYoung)
    as (w' & us & Hrun & _ & Hs & _ & Hlen & _).
  - rewrite Hl. apply NoDup_cons. split; [| apply NoDup_singleton].
    intros Hin. apply list_elem_of_singleton in Hin. discriminate Hin.
  - exact worldYoung_listedLive.
  - rewrite Hl in Hrun, Hs, Hlen. exists w', us. auto.
Defined.

(** ** The static list is the set of live Burrows *)

Lemma liveRegistry_listedLive (w : Burrow.World) :
  Burrow.liveRegistry w -> Burrow.listedLive w.
Proof.
  intros (_ & _ & Hlive) r b Hr Hb. now apply (Hlive r b Hb).
Qed.

Lemma create_liveRegistry cfg (parent : Burrow.Vector3) (modifier : Q)
  (w : Burrow.World) :
  Burrow.liveRegistry w ->
  Burrow.liveRegistry (snd (Burrow.create cfg parent modifier w)).
Proof.
  intros (Hwf & Hdom & Hlive).
  pose proof (create_wellFormed cfg parent modifier w Hwf) as Hwf'.
  destruct (create_effect cfg parent modifier w)
    as (Href & Hnext & Hl & _ & (b & Hb & _ & _ & Hroot) & Hother).
  cbn zeta in *. rewrite Href in *.
  split; [exact Hwf' | split].
  - intros r Hr. rewrite Hnext.
    destruct (decide (r = Burrow.nextRef w)) as [-> | Hne]; [lia |].
    rewrite Hother in Hr by exact Hne. apply Hdom in Hr. lia.
  - intros r b' Hb'. rewrite Hl, elem_of_app, list_elem_of_singleton.
    destruct (decide (r = Burrow.nextRef w)) as [-> | Hne].
    + assert (b' = b) as -> by congruence. split; auto.
    + rewrite Hother in Hb' by exact Hne.
      rewrite <- (Hlive r b' Hb'). split; [intros [? | ?] |]; tauto.
Qed.

Lemma dispose_liveRegistry (ref : nat) (w : Burrow.World) :
  Burrow.liveRegistry w -> Burrow.liveRegistry (Burrow.dispose ref w).
Proof.
  intros (Hwf & Hdom & Hlive).
  split; [now apply dispose_wellFormed | split].
  - intros r Hr. unfold Burrow.dispose in Hr |- *. burrow_fields.
    apply lookup_alter_is_Some in Hr. now apply Hdom.
  - intros r b' Hb'. unfold Burrow.dispose in Hb' |- *. burrow_fields.
    rewrite list_elem_of_filter.
    destruct (decide (r = ref)) as [-> | Hne].
    + rewrite lookup_alter_eq in Hb'.
      destruct (Burrow.objects w !! ref) as [b |]; [| discriminate].
      injection Hb' as <-. burrow_fields.
      split; [intros [Hneq _]; now contradiction Hneq | discriminate].
    + rewrite lookup_alter_ne in Hb' by congruence.
      rewrite <- (Hlive r b' Hb'). tauto.
Qed.

Lemma update_liveRegistry cfg (ref : nat) (w : Burrow.World) :
  Burrow.liveRegistry w ->
  Burrow.liveRegistry (Burrow.worldOf (Burrow.update cfg ref w)).
Proof.
  intros Hreg. destruct (Burrow.expiredIn w ref) eqn:Hexp.
  - rewrite (update_when_expired cfg ref w Hexp). cbn [Burrow.worldOf].
    apply dispose_liveRegistry. exact Hreg.
  - destruct Hreg as (Hwf & Hdom & Hlive).
    pose proof (update_burrows cfg ref w) as Hl. rewrite Hexp in Hl.
    split; [now apply update_wellFormed | split].
    + intros r Hr. rewrite update_nextRef. apply Hdom.
      pose proof (update_rootDisposed_lookup cfg ref r w Hexp) as Hd.
      destruct Hr as [b' Hb']. rewrite Hb' in Hd.
      destruct (Burrow.objects w !! r); [eauto | discriminate].
    + intros r b' Hb'. rewrite Hl.
      pose proof (update_rootDisposed_lookup cfg ref r w Hexp) as Hd.
      rewrite Hb' in Hd.
      destruct (Burrow.objects w !! r) as [b |] eqn:Hb; [| discriminate].
      cbn in Hd. injection Hd as ->. exact (Hlive r b Hb).
Qed.

(** Whatever every [update] preserves holds when [updateAll] ends. *)
Lemma updateAllFrom_preserves cfg (P : Burrow.World -> Prop) :
  (forall ref w, P w -> P (Burrow.worldOf (Burrow.update cfg ref w))) ->
  forall fuel i w o,
    Burrow.updateAllFrom cfg fuel i w = Some o -> P w ->
    P (Burrow.worldOf o).
Proof.
  intros Hstep. induction fuel as [| fuel IH]; intros i w o Hrun Hw;
    cbn [Burrow.updateAllFrom] in Hrun;
    destruct (Burrow._burrows w !! i) as [ref |];
    try discriminate Hrun; try (injection Hrun as <-; exact Hw).
  pose proof (Hstep ref w Hw) as Hw1.
  destruct (Burrow.update cfg ref w) as [w1 | w1]; cbn [Burrow.worldOf] in Hw1.
  - eapply IH; [exact Hrun | exact Hw1].
  - injection Hrun as <-. exact Hw1.
Qed.

(** Whatever every [dispose] preserves is preserved by [disposeAll]. *)
Lemma disposeAll_preserves (P : Burrow.World -> Prop) :
  (forall ref w, P w -> P (Burrow.dispose ref w)) ->
  forall fuel w w', Burrow.disposeAll fuel w = Some w' -> P w -> P w'.
Proof.
  intros Hstep. induction fuel as [| fuel IH]; intros w w' Hrun Hw;
    cbn [Burrow.disposeAll] in Hrun;
    destruct (Burrow._burrows w) as [| ref l];
    try discriminate Hrun; try (injection Hrun as <-; exact Hw).
  eapply IH; [exact Hrun | apply Hstep, Hw].
Qed.

(** X16. The static list never leaks and never dangles.  Start from a
    game in which the list holds exactly the Burrows that are not
    disposed (the empty game is one) and run any sequence of
    constructions, [update]s, [dispose]s, clock ticks, [updateAll]s and
    [disposeAll]s up to its first exception.  The loops end; the game
    reached is of the same kind: the references of the list are
    distinct, each denotes a constructed Burrow, and a constructed
    Burrow is in the list exactly when its root has not been disposed;
    and nothing throws unless [update] is called from outside
    [updateAll], so [updateAll] itself never throws. *)
Theorem burrows_liveRegistry cfg (ops : list Burrow.Op) (w : Burrow.World) :
  Burrow.liveRegistry w ->
  exists o,
    Burrow.runOps cfg ops w = Some o
    /\ Burrow.liveRegistry (Burrow.worldOf o)
    /\ (Forall (fun op => Burrow.isDirectUpdate op = false) ops ->
        Burrow.threw o = false).
Proof.
  revert w. induction ops as [| op ops IH]; intros w Hreg;
    cbn [Burrow.runOps].
  - exists (Burrow.Returned w). auto.
  - assert (Hstep : exists o1,
              Burrow.applyOp cfg op w = Some o1
              /\ Burrow.liveRegistry (Burrow.worldOf o1)
              /\ (Burrow.isDirectUpdate op = false ->
                  Burrow.threw o1 = false)).
    { destruct op as [parent modifier | ref | ref | dt | |];
        cbn [Burrow.applyOp Burrow.isDirectUpdate].
      - eexists. split; [reflexivity |].
        split; [now apply create_liveRegistry | reflexivity].
      - eexists. split; [reflexivity |].
        split; [now apply update_liveRegistry | discriminate].
      - eexists. split; [reflexivity |].
        split; [now apply dispose_liveRegistry | reflexivity].
      - eexists. split; [reflexivity |]. split; [exact Hreg | reflexivity].
      - pose proof Hreg as ([Hnd _] & _).
        destruct (updateAllFrom_visit cfg (Burrow.expiredIn w)
                    (length (Burrow._burrows w)) [] (Burrow._burrows w) w)
          as (w1 & Hrun & _); auto using liveRegistry_listedLive.
        exists (Burrow.Returned w1). split; [exact Hrun |].
        split; [| reflexivity].
        apply (updateAllFrom_preserves cfg Burrow.liveRegistry
                 (update_liveRegistry cfg) _ _ _ _ Hrun Hreg).
      - destruct (disposeAll_total (length (Burrow._burrows w)) w (le_n _))
          as (w1 & Hrun & _).
        rewrite Hrun. exists (Burrow.Returned w1). split; [reflexivity |].
        split; [| reflexivity]. cbn [Burrow.worldOf].
        eapply (disposeAll_preserves Burrow.liveRegistry);
          [apply dispose_liveRegistry | exact Hrun | exact Hreg]. }
    destruct Hstep as ([w1 | w1] & -> & Hreg1 & Hthrow).
    + destruct (IH w1 Hreg1) as (o & Hrun & Hreg' & Hthrow').
      exists o. split; [exact Hrun | split; [exact Hreg' |]].
      intros Hops. apply Forall_cons in Hops as [_ Hops]. auto.
    + exists (Burrow.Threw w1). split; [reflexivity | split; [exact Hreg1 |]].
      intros Hops. apply Forall_cons in Hops as [Hop _]. auto.
Qed.

Lemma burrows_liveRegistry_witness :
  exists w',
    Burrow.runOps config0
      [Burrow.OpCreate (1, 0, 1) 1; Burrow.OpCreate (2, 0, 2) 1;
       Burrow.OpTick 6; Burrow.OpUpdateAll; Burrow.OpCreate (3, 0, 3) 1;
       Burrow.OpDisposeAll] world0 = Some (Burrow.Returned w')
    /\ Burrow.liveRegistry w'.
Proof.
  destruct (burrows_liveRegistry config0
              [Burrow.OpCreate (1, 0, 1) 1; Burrow.OpCreate (2, 0, 2) 1;
               Burrow.OpTick 6; Burrow.OpUpdateAll;
               Burrow.OpCreate (3, 0, 3) 1; Burrow.OpDisposeAll] world0)
    as ([w' | w'] & Hrun & Hreg & Hthrow).
  - split; [split |]; cbn.
    + apply NoDup_nil_2.
    + intros r Hr. inversion Hr.
    + split.
      * intros r [b Hb]. rewrite lookup_empty in Hb. discriminate Hb.
      * intros r b Hb. rewrite lookup_empty in Hb. discriminate Hb.
  - exists w'. auto.
  - assert (Hno : Burrow.threw (Burrow.Threw w') = false)
      by (apply Hthrow; repeat constructor).
    discriminate Hno.
Defined.

(** X17. Disposing a Burrow a second time changes neither the list nor any
    object, and [dispose] never touches another Burrow's object. *)
Theorem dispose_twice (ref : nat) (w : Burrow.World) :
  Burrow._burrows (Burrow.dispose ref (Burrow.dispose ref w))
    = Burrow._burrows (Burrow.dispose ref w)
  /\ Burrow.objects (Burrow.dispose ref (Burrow.dispose ref w))
       = Burrow.objects (Burrow.dispose ref w)
  /\ (forall r, r <> ref ->
        Burrow.objects (Burrow.dispose ref w) !! r = Burrow.objects w !! r).
Proof.
  unfold Burrow.dispose. burrow_fields. split_ands.
  - apply filter_absent. intros Hin.
    apply list_elem_of_filter in Hin as [Hne _]. now apply Hne.
  - apply map_eq. intros r. destruct (decide (r = ref)) as [-> | Hne].
    + rewrite !lookup_alter_eq.
      destruct (Burrow.objects w !! ref); reflexivity.
    + now rewrite !lookup_alter_ne by congruence.
  - intros r Hne. now rewrite lookup_alter_ne by congruence.
Qed.

(** ** The upper bound on health *)

Lemma Clamp_le_max (value lo hi : Q) : Scalar.Clamp value lo hi <= hi.
Proof. unfold Scalar.Clamp. apply Q.le_min_l. Qed.

Lemma step_health_le_max nav (e : Event) (f : Farmer.t) :
  nonNegDamage e ->
  health f <= maxHealth f ->
  health (step nav e f) <= maxHealth (step nav e f).
Proof.
  intros Hdmg Hle. destruct e; cbn [nonNegDamage] in Hdmg;
    try (farmer_cases; first [exact Hle | apply Clamp_le_max | lra]).
Qed.

(** X9. Health never exceeds the maximum.  Whatever the events, as long as
    no collision carries a negative damage, [health <= maxHealth] is
    kept, even where the lower bound is not; and [modifyHealth] and
    [modifyMaxHealth] establish it whatever the state before. *)
Theorem health_never_exceeds_max nav :
  (forall es f,
     Forall nonNegDamage es ->
     health f <= maxHealth f ->
     health (run nav es f) <= maxHealth (run nav es f))
  /\ (forall v f, health (modifyHealth v f) <= maxHealth (modifyHealth v f))
  /\ (forall v f,
        health (modifyMaxHealth v f) <= maxHealth (modifyMaxHealth v f)).
Proof.
  split; [| split].
  - intros es f Hes. revert f.
    induction Hes as [| e es He _ IH]; intros f Hle; cbn [run]; [exact Hle |].
    apply IH. now apply step_health_le_max.
  - intros v f. cbn [modifyHealth set_health health maxHealth].
    apply Clamp_le_max.
  - intros v f.
    cbn [modifyMaxHealth modifyHealth set_maxHealth set_health health
         maxHealth].
    apply Clamp_le_max.
Qed.

Lemma health_never_exceeds_max_witness :
  health (run navId
            [EvCollide (StabberRabbit true 10); EvModifyMaxHealth (-(150));
             EvModifyHealth 500]
            farmerWeak)
  <= maxHealth (run navId
            [EvCollide (StabberRabbit true 10); EvModifyMaxHealth (-(150));
             EvModifyHealth 500]
            farmerWeak).
Proof.
  destruct (health_never_exceeds_max navId) as [Hrun _].
  apply Hrun.
  - repeat constructor; vm_compute; discriminate.
  - vm_compute. discriminate.
Defined.

Lemma dispose_twice_witness :
  Burrow._burrows (Burrow.dispose 0 (Burrow.dispose 0 worldTwo)) = [1%nat]
  /\ Burrow.objects (Burrow.dispose 0 worldTwo) !! 1%nat
       = Burrow.objects worldTwo !! 1%nat.
Proof.
  destruct (dispose_twice 0 worldTwo) as (Hl & _ & Hother).
  split.
  - rewrite Hl. vm_compute. reflexivity.
  - apply Hother. discriminate.
Defined.

Lemma updateAll_no_dispose_witness :
  exists w',
    Burrow.updateAll config0 2 worldYoung = Some (Burrow.Returned w')
    /\ Burrow._burrows w' = [0%nat; 1%nat]
    /\ Burrow.updatedRefs (Burrow.calls w') = [0%nat; 1%nat].
Proof.
  assert (Hl : Burrow._burrows worldYoung = [0%nat; 1%nat])
    by (vm_compute; reflexivity).
  destruct (updateAll_no_dispose config0 worldYoung) as (w' & Hrun & Hl' & Hu).
  - intros r b Hr Hb. rewrite Hl in Hr.
    apply elem_of_cons in Hr as [-> | Hr];
      [| apply list_elem_of_singleton in Hr; subst r];
      vm_compute in Hb; injection Hb as <-; vm_compute; discriminate.
  - exact worldYoung_listedLive.
  - exists w'. rewrite Hl in Hrun. split; [exact Hrun |].
    rewrite Hl', Hu, Hl. split; vm_compute; reflexivity.
Defined.
